(** * LL-mtproto: the session core of [ll_mtproto/client.py]

    A shallow embedding of the [Client] class: the sequence allocator, the
    pending registries, the ack batcher, the inbound dispatcher, the recovery
    handlers, [rpc_call] and [disconnect]; and, in the module [byteutils],
    of the byte-string helpers of [ll_mtproto/tl/byteutils.py].

    Conventions of the embedding.
    - Python integers are unbounded: they are [Z]; [//] is [Z.div] and [%] is
      [Z.modulo] (both round towards minus infinity for a positive divisor,
      as Python does), [<<] is [Z.shiftl].
    - Dictionaries are [gmap]s; the asyncio objects that are shared by
      reference (futures, timer handles) live in stores indexed by identity.
    - A coroutine is run up to the point where it parks on a caller-visible
      response future; the write-complete futures of the transport, the
      clock and the random generator are resolved by oracles.  No other task
      is scheduled between two suspension points of one coroutine.
    - An exception leaves the mutations made so far in place, as in Python:
      a computation returns the final world together with its result or the
      exception it raised. *)

From stdpp Require Import base option list gmap strings.
From Stdlib Require Import ZArith QArith Lia Sorted.

Local Open Scope Z_scope.

(** ** Values, requests and exceptions *)

Inductive Value :=
| VInt (z : Z)
| VStr (s : string)
| VIds (ids : list Z).

Abbreviation Dict := (gmap string Value).

(** Exceptions a write-complete future may be resolved with.  The handler in
    [_rpc_call] catches [OSError], [CancelledError] and [KeyboardInterrupt];
    [OtherError] stands for every exception outside that clause. *)
Inductive WriteExn := OSError | CancelledError | KeyboardInterrupt | OtherError.

Inductive WriteOutcome := WriteDone | WriteFailed (e : WriteExn).

Inductive Exn :=
| RuntimeError_cons_required
| InterruptedError
| InvalidStateError
| AttributeError
| KeyError
| FutureCancelled
| WriteRaised (e : WriteExn).

(** How an [asyncio.Future] was resolved; a future that is not resolved yet
    is pending. *)
Inductive Resolution :=
| FResult (d : Dict)
| FException (e : Exn)
| FCancelled.

(** ** Inbound TL structures *)

Inductive Structure :=
| rpc_result (req_msg_id : Z) (result : Structure)
| pong (msg_id ping_id : Z)
| bad_server_salt (bad_msg_id new_server_salt : Z)
| bad_msg_notification (bad_msg_id error_code : Z)
| msg_container (messages : list Message)
| gzip_packed (packed_data : Structure)
| other_cons (tag : string) (fields : Dict)
with Message :=
| mkMessage (msg_id seqno : Z) (body : Structure).

(** ** The transport *)

Record Frame := mkFrame { f_msg_id : Z; f_seqno : Z; f_fields : Dict }.

(** Modelled from the spec: the [MTProto] transport of
    [network/mtproto.py], which is not among the sources.  The spec gives it
    [write(seqno, **fields) -> (msg_id, write_complete)], assigning a
    monotonically increasing message id, [set_server_salt(salt: i64)] and
    [get_server_salt -> i64], which the client reads as an attribute
    ([self._mtproto.get_server_salt != 0]).  The frames handed to [write]
    are kept in [outbox]. *)
Record MTProto := mkMTProto {
  server_salt : Z;
  last_msg_id : Z;
  outbox : list Frame
}.

Definition get_server_salt (t : MTProto) : Z := server_salt t.

Definition set_server_salt (salt : Z) (t : MTProto) : MTProto :=
  {| server_salt := salt; last_msg_id := last_msg_id t; outbox := outbox t |}.

Definition write (seqno : Z) (fields : Dict) (t : MTProto) : Z * MTProto :=
  let id := last_msg_id t + 1 in
  (id, {| server_salt := server_salt t;
          last_msg_id := id;
          outbox := outbox t ++ [mkFrame id seqno fields] |}).

(** The fields of [write(seqno, _cons="msgs_ack", msg_ids=...)]. *)
Definition msgs_ack (msg_ids : list Z) : Dict :=
  <["_cons" := VStr "msgs_ack"]> (<["msg_ids" := VIds msg_ids]> ∅).

(** ** The event loop's objects *)

Inductive Callback :=
| cb_disconnect
| cb_delete_pending_request (msg_id : Z)
| cb_create_new_ping_request_sync.

Record TimerHandle := mkTimer {
  delay : Z;
  callback : Callback;
  cancelled : bool
}.

Inductive TaskState := TaskRunning | TaskFinished | TaskCancelled.

Definition task_done (t : TaskState) : bool :=
  match t with TaskRunning => false | _ => true end.

Inductive Effect :=
| task_cancel (t : TaskState)
| transport_stop (t : MTProto).

(** ** The client *)

Record _PendingRequest := mkPendingRequest {
  response : nat;
  request : Dict
}.

Record Client := mkClient {
  _seq_no : Z;
  _mtproto : option MTProto;
  _msgids_to_ack : list Z;
  _last_time_acks_flushed : Q;
  _last_seqno : Z;
  _stable_seqno : bool;
  _seqno_increment : Z;
  _mtproto_loop_task : option TaskState;
  _pending_requests : gmap Z _PendingRequest;
  _pending_pongs : gmap Z nat;
  _pending_ping_request : option nat
}.

(** The client together with the event loop it runs on.  A future is named
    by the number [create_future] gave it and [futures] holds the resolution
    of each future that is done; a timer handle is named by its position in
    [timers].  [effects] keeps the calls made on objects the client then
    drops.  [ticks], [draws] and [writes] count the clock readings, random
    draws and transport writes made so far (each indexes its oracle).
    [ack_log] is a history variable: every id ever appended to
    [_msgids_to_ack], in order (the list itself is replaced by a flush). *)
Record World := mkWorld {
  client : Client;
  futures : gmap nat Resolution;
  next_future : nat;
  timers : list TimerHandle;
  effects : list Effect;
  ticks : nat;
  draws : nat;
  writes : nat;
  ack_log : list Z
}.

Definition set_mtproto (v : option MTProto) (c : Client) : Client :=
  mkClient (_seq_no c) v (_msgids_to_ack c) (_last_time_acks_flushed c)
    (_last_seqno c) (_stable_seqno c) (_seqno_increment c)
    (_mtproto_loop_task c) (_pending_requests c) (_pending_pongs c)
    (_pending_ping_request c).

Definition set_msgids_to_ack (v : list Z) (c : Client) : Client :=
  mkClient (_seq_no c) (_mtproto c) v (_last_time_acks_flushed c)
    (_last_seqno c) (_stable_seqno c) (_seqno_increment c)
    (_mtproto_loop_task c) (_pending_requests c) (_pending_pongs c)
    (_pending_ping_request c).

Definition set_last_time_acks_flushed (v : Q) (c : Client) : Client :=
  mkClient (_seq_no c) (_mtproto c) (_msgids_to_ack c) v
    (_last_seqno c) (_stable_seqno c) (_seqno_increment c)
    (_mtproto_loop_task c) (_pending_requests c) (_pending_pongs c)
    (_pending_ping_request c).

Definition set_last_seqno (v : Z) (c : Client) : Client :=
  mkClient (_seq_no c) (_mtproto c) (_msgids_to_ack c)
    (_last_time_acks_flushed c) v (_stable_seqno c) (_seqno_increment c)
    (_mtproto_loop_task c) (_pending_requests c) (_pending_pongs c)
    (_pending_ping_request c).

Definition set_stable_seqno (v : bool) (c : Client) : Client :=
  mkClient (_seq_no c) (_mtproto c) (_msgids_to_ack c)
    (_last_time_acks_flushed c) (_last_seqno c) v (_seqno_increment c)
    (_mtproto_loop_task c) (_pending_requests c) (_pending_pongs c)
    (_pending_ping_request c).

Definition set_seqno_increment (v : Z) (c : Client) : Client :=
  mkClient (_seq_no c) (_mtproto c) (_msgids_to_ack c)
    (_last_time_acks_flushed c) (_last_seqno c) (_stable_seqno c) v
    (_mtproto_loop_task c) (_pending_requests c) (_pending_pongs c)
    (_pending_ping_request c).

Definition set_mtproto_loop_task (v : option TaskState) (c : Client) : Client :=
  mkClient (_seq_no c) (_mtproto c) (_msgids_to_ack c)
    (_last_time_acks_flushed c) (_last_seqno c) (_stable_seqno c)
    (_seqno_increment c) v (_pending_requests c) (_pending_pongs c)
    (_pending_ping_request c).

Definition set_pending_requests (v : gmap Z _PendingRequest) (c : Client) : Client :=
  mkClient (_seq_no c) (_mtproto c) (_msgids_to_ack c)
    (_last_time_acks_flushed c) (_last_seqno c) (_stable_seqno c)
    (_seqno_increment c) (_mtproto_loop_task c) v (_pending_pongs c)
    (_pending_ping_request c).

Definition set_pending_pongs (v : gmap Z nat) (c : Client) : Client :=
  mkClient (_seq_no c) (_mtproto c) (_msgids_to_ack c)
    (_last_time_acks_flushed c) (_last_seqno c) (_stable_seqno c)
    (_seqno_increment c) (_mtproto_loop_task c) (_pending_requests c) v
    (_pending_ping_request c).

Definition set_pending_ping_request (v : option nat) (c : Client) : Client :=
  mkClient (_seq_no c) (_mtproto c) (_msgids_to_ack c)
    (_last_time_acks_flushed c) (_last_seqno c) (_stable_seqno c)
    (_seqno_increment c) (_mtproto_loop_task c) (_pending_requests c)
    (_pending_pongs c) v.

Definition with_client (f : Client -> Client) (w : World) : World :=
  mkWorld (f (client w)) (futures w) (next_future w) (timers w) (effects w)
    (ticks w) (draws w) (writes w) (ack_log w).

Definition set_futures (v : gmap nat Resolution) (w : World) : World :=
  mkWorld (client w) v (next_future w) (timers w) (effects w) (ticks w) (draws w) (writes w) (ack_log w).

Definition set_next_future (v : nat) (w : World) : World :=
  mkWorld (client w) (futures w) v (timers w) (effects w) (ticks w) (draws w) (writes w) (ack_log w).

Definition set_timers (v : list TimerHandle) (w : World) : World :=
  mkWorld (client w) (futures w) (next_future w) v (effects w) (ticks w) (draws w) (writes w) (ack_log w).

Definition set_effects (v : list Effect) (w : World) : World :=
  mkWorld (client w) (futures w) (next_future w) (timers w) v (ticks w) (draws w) (writes w) (ack_log w).

Definition set_ticks (v : nat) (w : World) : World :=
  mkWorld (client w) (futures w) (next_future w) (timers w) (effects w) v (draws w) (writes w) (ack_log w).

Definition set_draws (v : nat) (w : World) : World :=
  mkWorld (client w) (futures w) (next_future w) (timers w) (effects w) (ticks w) v (writes w) (ack_log w).

Definition set_writes (v : nat) (w : World) : World :=
  mkWorld (client w) (futures w) (next_future w) (timers w) (effects w) (ticks w) (draws w) v (ack_log w).

Definition set_ack_log (v : list Z) (w : World) : World :=
  mkWorld (client w) (futures w) (next_future w) (timers w) (effects w) (ticks w) (draws w) (writes w) v.

(** ** The sequence allocator *)

Definition _get_next_odd_seqno (c : Client) : Z * Client :=
  let v := ((_last_seqno c + 1) / 2) * 2 + 1 in
  (v, set_last_seqno v c).

Definition _get_next_even_seqno (c : Client) : Z * Client :=
  let v := (_last_seqno c / 2 + 1) * 2 in
  (v, set_last_seqno v c).

Definition _update_last_seqno_from_incoming_message (m : Message) (c : Client) : Client :=
  match m with
  | mkMessage _ seqno _ => set_last_seqno (Z.max (_last_seqno c) seqno) c
  end.

Inductive AllocCall := next_odd | next_even.

Definition alloc (k : AllocCall) (c : Client) : Z * Client :=
  match k with
  | next_odd => _get_next_odd_seqno c
  | next_even => _get_next_even_seqno c
  end.

(** The values returned by a sequence of allocator calls, in call order. *)
Fixpoint alloc_run (ks : list AllocCall) (c : Client) : list Z :=
  match ks with
  | [] => []
  | k :: ks' => let '(v, c') := alloc k c in v :: alloc_run ks' c'
  end.

Definition has_parity (k : AllocCall) (v : Z) : Prop :=
  match k with
  | next_odd => v mod 2 = 1
  | next_even => v mod 2 = 0
  end.

(** ** Computations: state and exceptions *)

Inductive Res (A : Type) :=
| Ok (a : A)
| Raise (e : Exn).

Arguments Ok {A} a.
Arguments Raise {A} e.

Definition M (A : Type) : Type := World -> World * Res A.

Definition ret {A} (a : A) : M A := fun w => (w, Ok a).

Definition raise {A} (e : Exn) : M A := fun w => (w, Raise e).

Definition bind {A B} (m : M A) (k : A -> M B) : M B :=
  fun w =>
    match m w with
    | (w', Ok a) => k a w'
    | (w', Raise e) => (w', Raise e)
    end.

Notation "'let*' x ':=' m 'in' k" := (bind m (fun x => k))
  (at level 10, x pattern, m at level 100, k at level 200).

Definition get_client : M Client := fun w => (w, Ok (client w)).

Definition modify_client (f : Client -> Client) : M unit :=
  fun w => (with_client f w, Ok tt).

(** Run a method that returns a value and updates [self]. *)
Definition on_client {A} (f : Client -> A * Client) : M A :=
  fun w => let '(a, c) := f (client w) in (with_client (fun _ => c) w, Ok a).

Fixpoint for_each {A} (l : list A) (f : A -> M unit) : M unit :=
  match l with
  | [] => ret tt
  | a :: l' => let* _ := f a in for_each l' f
  end.

(** [try: m except: pass] *)
Definition swallow (m : M unit) : M unit :=
  fun w => (fst (m w), Ok tt).

(** *** asyncio primitives *)

(** [loop.create_future()] *)
Definition create_future : M nat :=
  fun w => (set_next_future (S (next_future w)) w, Ok (next_future w)).

(** [future.done()] *)
Definition future_done (slot : nat) : M bool :=
  fun w => (w, Ok (bool_decide (is_Some (futures w !! slot)))).

(** [future.set_result(d)] and [future.set_exception(e)]: on a future that
    is already done they raise [InvalidStateError]. *)
Definition resolve (slot : nat) (r : Resolution) : M unit :=
  fun w =>
    match futures w !! slot with
    | Some _ => (w, Raise InvalidStateError)
    | None => (set_futures (<[slot := r]> (futures w)) w, Ok tt)
    end.

Definition set_result (slot : nat) (d : Dict) : M unit :=
  resolve slot (FResult d).

Definition set_exception (slot : nat) (e : Exn) : M unit :=
  resolve slot (FException e).

(** [try: m except (caught): handler] *)
Definition try_except {A} (m : M A) (caught : Exn -> bool) (handler : M A) : M A :=
  fun w =>
    match m w with
    | (w', Raise e) => if caught e then handler w' else (w', Raise e)
    | r => r
    end.

Definition call_later (d : Z) (cb : Callback) : M nat :=
  fun w => (set_timers (timers w ++ [mkTimer d cb false]) w, Ok (length (timers w))).

Definition cancel_handle (t : TimerHandle) : TimerHandle :=
  mkTimer (delay t) (callback t) true.

Definition timer_cancel (h : nat) : M unit :=
  fun w => (set_timers (alter cancel_handle h (timers w)) w, Ok tt).

Definition log_effect (e : Effect) : M unit :=
  fun w => (set_effects (effects w ++ [e]) w, Ok tt).

(** What a coroutine that ends by awaiting a response future yields. *)
Inductive RpcOutcome :=
| Returned (v : option Dict)
| Parked (slot : nat).

(** [Client.__init__], the clock reading [now]. *)
Definition init_client (now : Q) : Client :=
  {| _seq_no := -1;
     _mtproto := None;
     _msgids_to_ack := [];
     _last_time_acks_flushed := now;
     _last_seqno := 0;
     _stable_seqno := false;
     _seqno_increment := 1;
     _mtproto_loop_task := None;
     _pending_requests := ∅;
     _pending_pongs := ∅;
     _pending_ping_request := None |}.

Definition init_world (now : Q) : World :=
  {| client := init_client now;
     futures := ∅;
     next_future := 0;
     timers := [];
     effects := [];
     ticks := 0;
     draws := 0;
     writes := 0;
     ack_log := [] |}.

(** [keeps I P m]: from a world in [I], [m] ends in a world in [I], whether
    it returns or raises, and raises only exceptions in [P]. *)
Definition keeps {A} (I : World -> Prop) (P : Exn -> Prop) (m : M A) : Prop :=
  forall w, I w -> I (m w).1 /\ forall e, (m w).2 = Raise e -> P e.

(** ** Concrete oracles and inputs used by the examples *)

Definition writes_succeed : nat -> WriteOutcome := fun _ => WriteDone.

(** Every write-complete future fails with [e]. *)
Definition writes_fail (e : WriteExn) : nat -> WriteOutcome :=
  fun _ => WriteFailed e.

(** The clock reads [q] at every reading. *)
Definition clock_at (q : Q) : nat -> Q := fun _ => q.

Definition ping_ids : nat -> Z := fun n => 7000 + Z.of_nat n.

(** A transport whose first message id is 1000. *)
Definition transport_1000 : MTProto :=
  {| server_salt := 0; last_msg_id := 999; outbox := [] |}.

Definition fields_of (s : Structure) : Dict :=
  match s with
  | other_cons tag fields => <["_cons" := VStr tag]> fields
  | _ => ∅
  end.

Definition getConfig : Dict := <["_cons" := VStr "help.getConfig"]> ∅.

(** A connected session: transport [t] with a running read loop. *)
Definition connected (t : MTProto) (w : World) : World :=
  with_client (fun c => set_mtproto_loop_task (Some TaskRunning)
                          (set_mtproto (Some t) c)) w.

(** A transport that holds [salt] and has sent [getConfig] as message 1000
    under seqno 1. *)
Definition transport_sent_1000 (salt : Z) : MTProto :=
  {| server_salt := salt; last_msg_id := 1000;
     outbox := [mkFrame 1000 1 getConfig] |}.

(** A connected session in which that request is pending on future 0. *)
Definition in_flight (stable : bool) (salt : Z) : World :=
  set_next_future 1
    (connected (transport_sent_1000 salt)
       (with_client
          (fun c => set_stable_seqno stable
                      (set_last_seqno 1
                         (set_pending_requests
                            (<[1000 := mkPendingRequest 0%nat getConfig]> ∅) c)))
          (init_world 0))).

(** An update pushed by the server, and a container of three messages
    with seqnos 1, 2 and 3, the last one gzip-wrapped. *)
Definition update_msg (msg_id seqno : Z) : Message :=
  mkMessage msg_id seqno (other_cons "updateShort" ∅).

Definition sample_container : Message :=
  mkMessage 5000 4
    (msg_container
       [update_msg 5001 1; update_msg 5002 2;
        mkMessage 5003 3 (gzip_packed (other_cons "updates" ∅))]).

Definition two_updates : Message :=
  mkMessage 5000 4 (msg_container [update_msg 5001 1; update_msg 5003 3]).

(** [future.cancel()], what [asyncio.wait_for(future, timeout)] does to the
    future it awaits when the timeout expires or the awaiting task is
    cancelled. *)
Definition future_cancel (slot : nat) (w : World) : World :=
  match futures w !! slot with
  | Some _ => w
  | None => set_futures (<[slot := FCancelled]> (futures w)) w
  end.

(** [n] updates with ids 5000, 5001, ... and the odd seqnos 1, 3, ... *)
Definition updates (n : nat) : list Message :=
  map (fun i => update_msg (5000 + Z.of_nat i) (2 * Z.of_nat i + 1)) (seq 0 n).

(** An [rpc_result] under an even seqno that answers no registered
    request. *)
Definition even_rpc_result : Message :=
  mkMessage 7000 64 (rpc_result 999 (other_cons "config" ∅)).

(** The [rpc_result] that answers message 1001, under seqno 1, and the
    [pong] that answers the ping sent as message 1000. *)
Definition result_1001 : Message :=
  mkMessage 6001 1 (rpc_result 1001 (other_cons "config" ∅)).

Definition pong_1000 : Message := mkMessage 6000 2 (pong 1000 7000).

(** The fields of the last frame the transport was handed. *)
Definition last_frame_fields (w : World) : option Dict :=
  t ← _mtproto (client w); f_fields <$> last (outbox t).

(** * [tl/byteutils.py] *)

From Stdlib.Strings Require Import Byte.

Module byteutils.

(** The exceptions the functions of the module raise, by [raise] or through
    [int.to_bytes] and [ord]. *)
Inductive PyError :=
| OverflowError
| RuntimeError
| NotImplementedError
| ValueError
| TypeError.

Definition bytes : Type := list byte.

Inductive ByteOrder := big | little.

(** The integer a byte stands for, and the byte of an integer of
    [range(256)]. *)
Definition byte_to_Z (b : byte) : Z := Z.of_N (Byte.to_N b).

Definition byte_of_Z (z : Z) : byte :=
  default Byte.x00 (Byte.of_N (Z.to_N (z mod 256))).

(** [ord(b)] on a [bytes] object. *)
Definition ord (b : bytes) : PyError + Z :=
  match b with
  | [c] => inr (byte_to_Z c)
  | _ => inl TypeError
  end.

Fixpoint le_digits (n : nat) (x : Z) : bytes :=
  match n with
  | O => []
  | S n' => byte_of_Z (x mod 256) :: le_digits n' (x / 256)
  end.

Fixpoint le_value (b : bytes) : Z :=
  match b with
  | [] => 0
  | c :: b' => byte_to_Z c + 256 * le_value b'
  end.

(** [x.to_bytes(length, byte_order, signed=signed)] *)
Definition int_to_bytes (x : Z) (length : nat) (byte_order : ByteOrder)
  (signed : bool) : PyError + bytes :=
  let bound := 256 ^ Z.of_nat length in
  let fits := if signed
              then (- bound <=? 2 * x) && (2 * x <? bound)
              else (0 <=? x) && (x <? bound) in
  if fits
  then inr (match byte_order with
            | little => le_digits length x
            | big => rev (le_digits length x)
            end)
  else inl OverflowError.

(** [int.from_bytes(b, byte_order, signed=signed)] *)
Definition int_from_bytes (b : bytes) (byte_order : ByteOrder) (signed : bool) : Z :=
  let v := le_value (match byte_order with little => b | big => rev b end) in
  let bound := 256 ^ Z.of_nat (length b) in
  if signed && (bound <=? 2 * v) then v - bound else v.

(** [x.bit_length()] *)
Definition bit_length (x : Z) : Z :=
  if x =? 0 then 0 else Z.log2 (Z.abs x) + 1.

(** [l[start:stop]] for a slice with step 1: a negative index counts from
    the end, and both are clamped to the sequence. *)
Definition slice_index (len i : Z) : Z :=
  if i <? 0 then Z.max (i + len) 0 else Z.min i len.

Definition slice {A} (l : list A) (start stop : Z) : list A :=
  let len := Z.of_nat (length l) in
  let a := slice_index len start in
  let b := slice_index len stop in
  take (Z.to_nat (b - a)) (drop (Z.to_nat a) l).

(** [l[start:]] *)
Definition slice_from {A} (l : list A) (start : Z) : list A :=
  drop (Z.to_nat (slice_index (Z.of_nat (length l)) start)) l.

Definition byte_xor (ca cb : byte) : byte :=
  default Byte.x00 (Byte.of_N (N.lxor (Byte.to_N ca) (Byte.to_N cb))).

Definition xor (a b : bytes) : bytes := zip_with byte_xor a b.

Definition to_bytes (x : Z) (byte_order : ByteOrder) (signed : bool)
  : PyError + bytes :=
  int_to_bytes x (Z.to_nat ((bit_length x - 1) / 8 + 1)) byte_order signed.

(** [b"\x00" * n] *)
Definition zeros (n : Z) : bytes := replicate (Z.to_nat n) Byte.x00.

Definition pack_binary_string (data : bytes) : PyError + bytes :=
  let length := Z.of_nat (length data) in
  if length <? 254
  then
    let padding := zeros ((3 - length) mod 4) in
    match int_to_bytes length 1 little false with
    | inr header => inr (header ++ data ++ padding)
    | inl e => inl e
    end
  else if length <=? 0xFFFFFF
  then
    let padding := zeros ((- length) mod 4) in
    match int_to_bytes length 3 little false with
    | inr header => inr ([Byte.xfe] ++ header ++ data ++ padding)
    | inl e => inl e
    end
  else inl OverflowError.

Definition pack_long_binary_string (data : bytes) : PyError + bytes :=
  match int_to_bytes (Z.of_nat (length data)) 4 little false with
  | inr header => inr (header ++ data)
  | inl e => inl e
  end.

(** Code that reads from an object in state [S]: the state it leaves, and
    the value it returns or the exception it raises. *)
Definition Op (S A : Type) : Type := S -> S * (PyError + A).

Definition op_ret {S A} (a : A) : Op S A := fun s => (s, inr a).

Definition op_raise {S A} (e : PyError) : Op S A := fun s => (s, inl e).

Definition op_bind {S A B} (m : Op S A) (k : A -> Op S B) : Op S B :=
  fun s =>
    match m s with
    | (s', inr a) => k a s'
    | (s', inl e) => (s', inl e)
    end.

Definition op_lift {S A} (r : PyError + A) : Op S A := fun s => (s, r).

(** A [ByteReader]: [await bytereader(n)]. *)
Definition ByteReader (S : Type) : Type := Z -> Op S bytes.

Definition unpack_binary_string {S} (bytereader : ByteReader S) : Op S bytes :=
  op_bind (bytereader 1) (fun first =>
  op_bind (op_lift (ord first)) (fun str_len =>
  op_bind
    (if 0xFE <? str_len
     then op_raise RuntimeError
     else if str_len =? 0xFE
     then
       op_bind (bytereader 3) (fun b =>
       let str_len := int_from_bytes b little false in
       op_ret (str_len, (- str_len) mod 4))
     else op_ret (str_len, (3 - str_len) mod 4))
    (fun '(str_len, padding_bytes) =>
  op_bind (bytereader str_len) (fun s =>
  op_bind (bytereader padding_bytes) (fun _ =>
  op_ret s))))).

Definition unpack_long_binary_string {S} (bytereader : ByteReader S) : Op S bytes :=
  op_bind (bytereader 4) (fun b =>
  let strlen := int_from_bytes b little false in
  bytereader strlen).

(** ** [class Bytedata] *)
Module Bytedata.

Record t := mk {
  _byte_order : ByteOrder;
  _signed : bool;
  _offset : Z;
  _data : bytes
}.

Definition __init__ (data : bytes) (byte_order : ByteOrder) (signed : bool) : t :=
  {| _byte_order := byte_order; _signed := signed; _offset := 0; _data := data |}.

Definition __bytes__ (self : t) : bytes := slice_from (_data self) (_offset self).

Definition __bool__ (self : t) : bool :=
  _offset self <? Z.of_nat (length (_data self)).

Definition int (self : t) : Z :=
  int_from_bytes (_data self) (_byte_order self) (_signed self).

Definition read (num_bytes : Z) : Op t bytes :=
  fun self =>
    if Z.of_nat (length (_data self)) <? num_bytes
    then (self, inl ValueError)
    else
      let result := slice (_data self) (_offset self) (_offset self + num_bytes) in
      ({| _byte_order := _byte_order self; _signed := _signed self;
          _offset := _offset self + num_bytes; _data := _data self |},
       inr result).

Definition cororead : ByteReader t := read.

Definition unpack_binary_string : Op t bytes :=
  op_bind (read 1) (fun first =>
  op_bind (op_lift (ord first)) (fun strlen =>
  op_bind
    (if 0xFE <? strlen
     then op_raise NotImplementedError
     else if strlen =? 0xFE
     then
       op_bind (read 3) (fun b =>
       let strlen := int_from_bytes b little false in
       op_ret (strlen, (- strlen) mod 4))
     else op_ret (strlen, (3 - strlen) mod 4))
    (fun '(strlen, padding_bytes) =>
  op_bind (read strlen) (fun s =>
  op_bind (read padding_bytes) (fun _ =>
  op_ret s))))).

End Bytedata.

End byteutils.

(** ** The methods of [Client] *)

Section Model.

(** The [n]-th write-complete future awaited, the [n]-th reading of
    [time.time()], the [n]-th draw of [random.randrange(-2**63, 2**63)]. *)
Variable write_outcome : nat -> WriteOutcome.
Variable time_time : nat -> Q.
Variable randrange : nat -> Z.

(** A transport as its constructor returns it, and the TL layer's
    [Structure.get_dict]; neither is among the sources. *)
Variable new_MTProto : MTProto.
Variable get_dict : Structure -> Dict.

Definition time_now : M Q :=
  fun w => (set_ticks (S (ticks w)) w, Ok (time_time (ticks w))).

Definition random_ping_id : M Z :=
  fun w => (set_draws (S (draws w)) w, Ok (randrange (draws w))).

(** [self._mtproto.write(seqno, **fields)]: the message id and the index
    of the write-complete future.  The entries of [fields] are passed as
    keyword arguments; the [TypeError] that Python raises when one of the
    keys names a parameter of [write] is not modelled (see
    [passes_as_kwargs]). *)
Definition mtproto_write (seqno : Z) (fields : Dict) : M (Z * nat) :=
  fun w =>
    match _mtproto (client w) with
    | None => (w, Raise AttributeError)
    | Some t =>
        let '(id, t') := write seqno fields t in
        (set_writes (S (writes w)) (with_client (set_mtproto (Some t')) w),
         Ok (id, writes w))
    end.

(** [await asyncio.wait_for(write_future, 120)] *)
Definition wait_for_write (n : nat) : M unit :=
  match write_outcome n with
  | WriteDone => ret tt
  | WriteFailed e => raise (WriteRaised e)
  end.

Definition caught_in_rpc_call (e : Exn) : bool :=
  match e with
  | WriteRaised OSError | WriteRaised CancelledError
  | WriteRaised KeyboardInterrupt => true
  | _ => false
  end.

(** [await asyncio.wait_for(pending_request.response, 600)], up to the
    suspension on a future that is not resolved yet. *)
Definition wait_for_response (slot : nat) : M RpcOutcome :=
  fun w =>
    match futures w !! slot with
    | None => (w, Ok (Parked slot))
    | Some (FResult d) => (w, Ok (Returned (Some d)))
    | Some (FException e) => (w, Raise e)
    | Some FCancelled => (w, Raise FutureCancelled)
    end.

Definition _delete_pending_pong (ping_id : Z) (remove : bool) : M unit :=
  let* c := get_client in
  match _pending_pongs c !! ping_id with
  | Some h =>
      let* _ := timer_cancel h in
      if remove
      then modify_client (fun c => set_pending_pongs (delete ping_id (_pending_pongs c)) c)
      else ret tt
  | None => ret tt
  end.

Definition _delete_pending_request (msg_id : Z) (remove : bool) : M unit :=
  let* c := get_client in
  match _pending_requests c !! msg_id with
  | Some pr =>
      let pending_response := response pr in
      let* d := future_done pending_response in
      let* _ := if d then ret tt
                else set_exception pending_response InterruptedError in
      if remove
      then modify_client (fun c => set_pending_requests (delete msg_id (_pending_requests c)) c)
      else ret tt
  | None => ret tt
  end.

Definition _delete_all_pending_pongs : M unit :=
  let* c := get_client in
  let* _ := for_each (map_to_list (_pending_pongs c)).*1
              (fun pending_pong_id => _delete_pending_pong pending_pong_id false) in
  modify_client (set_pending_pongs ∅).

Definition _delete_all_pending_requests : M unit :=
  let* c := get_client in
  let* _ := for_each (map_to_list (_pending_requests c)).*1
              (fun pending_request_id => _delete_pending_request pending_request_id false) in
  modify_client (set_pending_requests ∅).

Definition _delete_all_pending_data : M unit :=
  let* _ := _delete_all_pending_pongs in
  let* _ := _delete_all_pending_requests in
  let* c := get_client in
  let* _ := match _pending_ping_request c with
            | Some h => timer_cancel h
            | None => ret tt
            end in
  modify_client (set_pending_ping_request None).

Definition _flush_msgids_to_ack : M unit :=
  let* now := time_now in
  let* _ := modify_client (set_last_time_acks_flushed now) in
  let* c := get_client in
  if match _msgids_to_ack c with [] => true | _ => false end
     || negb (_stable_seqno c)
  then ret tt
  else
    let* seqno := on_client _get_next_even_seqno in
    let* (_, write_future) :=
      mtproto_write seqno (msgs_ack (_msgids_to_ack c)) in
    let* _ := wait_for_write write_future in
    modify_client (set_msgids_to_ack []).

Definition _flush_msgids_to_ack_if_needed : M unit :=
  let* c := get_client in
  if 32 <=? Z.of_nat (length (_msgids_to_ack c))
  then _flush_msgids_to_ack
  else
    let* now := time_now in
    if Qle_bool (now - _last_time_acks_flushed c) (10 # 1)
    then ret tt
    else _flush_msgids_to_ack.

Definition _create_new_ping_request : M unit :=
  let* new_random_ping_id := random_ping_id in
  let* seqno := on_client _get_next_odd_seqno in
  let request : Dict :=
    <["_cons" := VStr "ping"]> (<["ping_id" := VInt new_random_ping_id]> ∅) in
  let* slot := create_future in
  let pending_request := mkPendingRequest slot request in
  let* h := call_later 10 cb_disconnect in
  let* _ := modify_client
              (fun c => set_pending_pongs (<[new_random_ping_id := h]> (_pending_pongs c)) c) in
  let* (message_id, write_future) := mtproto_write seqno request in
  let* _ := modify_client
              (fun c => set_pending_requests
                          (<[message_id := pending_request]> (_pending_requests c)) c) in
  wait_for_write write_future.

Definition _start_mtproto_loop : M unit :=
  let* _ := _delete_all_pending_data in
  let* c := get_client in
  let* _ := match _mtproto c with
            | Some t =>
                match _mtproto_loop_task c with
                | Some task =>
                    let* _ := log_effect (task_cancel task) in
                    log_effect (transport_stop t)
                | None => raise AttributeError
                end
            | None => ret tt
            end in
  let* _ := modify_client
              (fun c => set_mtproto_loop_task (Some TaskRunning)
                          (set_mtproto (Some new_MTProto) c)) in
  _create_new_ping_request.

(** The statement that opens [_rpc_call]:
    [if self._mtproto is None or self._mtproto_loop_task.done():
         await self._start_mtproto_loop()]. *)
Definition ensure_mtproto_loop : M unit :=
  let* c := get_client in
  match _mtproto c with
  | None => _start_mtproto_loop
  | Some _ =>
      match _mtproto_loop_task c with
      | None => raise AttributeError
      | Some task => if task_done task then _start_mtproto_loop else ret tt
      end
  end.

Definition _rpc_call (pending_request : _PendingRequest) (no_response : bool)
  : M RpcOutcome :=
  let* _ := ensure_mtproto_loop in
  let* _ := _flush_msgids_to_ack in
  let* seqno := on_client _get_next_odd_seqno in
  let* (message_id, write_future) := mtproto_write seqno (request pending_request) in
  let* _ := match request pending_request !! "_cons" with
            | Some _ => ret tt
            | None => raise KeyError
            end in
  let* _ := modify_client
              (fun c => set_pending_requests
                          (<[message_id := pending_request]> (_pending_requests c)) c) in
  let* _ := try_except (wait_for_write write_future) caught_in_rpc_call
              (_delete_pending_request message_id true) in
  let* _ := modify_client (fun c => set_seqno_increment (_seqno_increment c + 1) c) in
  if no_response
  then
    let* _ := call_later 600 (cb_delete_pending_request message_id) in
    ret (Returned None)
  else wait_for_response (response pending_request).

Definition rpc_call (message : Dict) : M RpcOutcome :=
  match message !! "_cons" with
  | None => raise RuntimeError_cons_required
  | Some _ =>
      let* slot := create_future in
      _rpc_call (mkPendingRequest slot message) false
  end.

Definition _process_rpc_result (req_msg_id : Z) (result : Structure) : M unit :=
  let* _ := modify_client (set_stable_seqno true) in
  let* c := get_client in
  match _pending_requests c !! req_msg_id with
  | Some pending_request =>
      let* _ := modify_client
                  (fun c => set_pending_requests (delete req_msg_id (_pending_requests c)) c) in
      let result' := match result with
                     | gzip_packed packed_data => packed_data
                     | _ => result
                     end in
      set_result (response pending_request) (get_dict result')
  | None => ret tt
  end.

Definition _process_pong (msg_id ping_id : Z) : M unit :=
  let* _ := _delete_pending_pong ping_id true in
  let* c := get_client in
  let* _ := match _pending_requests c !! msg_id with
            | Some pending_request => set_result (response pending_request) ∅
            | None => ret tt
            end in
  let* h := call_later 10 cb_create_new_ping_request_sync in
  modify_client (set_pending_ping_request (Some h)).

Definition _process_bad_server_salt (bad_msg_id new_server_salt : Z) : M unit :=
  let* c := get_client in
  match _mtproto c with
  | None => raise AttributeError
  | Some t =>
      let* _ := if bool_decide (get_server_salt t ≠ 0)
                then modify_client (set_stable_seqno false)
                else ret tt in
      let* _ := modify_client (set_mtproto (Some (set_server_salt new_server_salt t))) in
      let* c := get_client in
      match _pending_requests c !! bad_msg_id with
      | Some bad_request =>
          let* _ := modify_client
                      (fun c => set_pending_requests (delete bad_msg_id (_pending_requests c)) c) in
          let* _ := _rpc_call bad_request true in
          ret tt
      | None => ret tt
      end
  end.

Definition _process_bad_msg_notification_msg_seqno_too_low (bad_msg_id : Z) : M unit :=
  let* _ := modify_client
              (fun c => set_seqno_increment
                          (Z.min (2 ^ 31 - 1) (Z.shiftl (_seqno_increment c) 1)) c) in
  let* _ := modify_client
              (fun c => set_last_seqno (_last_seqno c + _seqno_increment c) c) in
  let* c := get_client in
  match _pending_requests c !! bad_msg_id with
  | Some bad_request =>
      let* _ := modify_client
                  (fun c => set_pending_requests (delete bad_msg_id (_pending_requests c)) c) in
      let* _ := _rpc_call bad_request true in
      ret tt
  | None => ret tt
  end.

Definition _process_telegram_message_body (body : Structure) : M unit :=
  match body with
  | rpc_result req_msg_id result => _process_rpc_result req_msg_id result
  | pong msg_id ping_id => _process_pong msg_id ping_id
  | bad_server_salt bad_msg_id new_server_salt =>
      _process_bad_server_salt bad_msg_id new_server_salt
  | bad_msg_notification bad_msg_id error_code =>
      let* c := get_client in
      if (error_code =? 32) && negb (_stable_seqno c)
      then _process_bad_msg_notification_msg_seqno_too_low bad_msg_id
      else ret tt
  | _ => ret tt
  end.

(** [self._msgids_to_ack.append(message.msg_id)], also entered in the
    history. *)
Definition enqueue_ack (msg_id : Z) : M unit :=
  fun w =>
    (set_ack_log (ack_log w ++ [msg_id])
       (with_client (fun c => set_msgids_to_ack (_msgids_to_ack c ++ [msg_id]) c) w),
     Ok tt).

Definition _acknowledge_telegram_message (msg_id seqno : Z) : M unit :=
  if seqno mod 2 =? 1
  then
    let* _ := enqueue_ack msg_id in
    _flush_msgids_to_ack
  else ret tt.

Fixpoint _process_telegram_message (message : Message) : M unit :=
  match message with
  | mkMessage msg_id seqno message_body =>
      let* _ := modify_client (_update_last_seqno_from_incoming_message message) in
      let body := match message_body with
                  | gzip_packed packed_data => packed_data
                  | _ => message_body
                  end in
      match body with
      | msg_container messages =>
          (fix each (ms : list Message) : M unit :=
             match ms with
             | [] => ret tt
             | m :: ms' => let* _ := _process_telegram_message m in each ms'
             end) messages
      | _ =>
          let* _ := _process_telegram_message_body body in
          _acknowledge_telegram_message msg_id seqno
      end
  end.

(** One turn of [_mtproto_loop] on a message the transport delivered. *)
Definition _mtproto_loop_turn (message : Message) : M unit :=
  swallow (let* _ := _process_telegram_message message in
           _flush_msgids_to_ack_if_needed).

Definition disconnect : M unit :=
  let* _ := _delete_all_pending_data in
  let* c := get_client in
  let* _ := match _mtproto c with
            | Some t =>
                match _mtproto_loop_task c with
                | Some task =>
                    let* _ := log_effect (task_cancel task) in
                    log_effect (transport_stop t)
                | None => raise AttributeError
                end
            | None => ret tt
            end in
  let* _ := modify_client (set_mtproto None) in
  modify_client (set_mtproto_loop_task None).

(** ** Definitions used by the statements *)

(** The world after a flush attempt read the clock and found the gate
    closed: only [_last_time_acks_flushed] and the clock counter moved. *)
Definition after_flush_noop (w : World) : World :=
  set_ticks (S (ticks w))
    (with_client (set_last_time_acks_flushed (time_time (ticks w))) w).

(** The world after a flush attempt allocated an even seqno and handed a
    [msgs_ack] frame to the transport [t]; [cleared] tells whether the
    write-complete future resolved and the buffer was replaced. *)
Definition after_flush_write (w : World) (t : MTProto) (cleared : bool) : World :=
  let c := client w in
  let seqno := (_last_seqno c / 2 + 1) * 2 in
  let c1 := set_mtproto (Some (write seqno (msgs_ack (_msgids_to_ack c)) t).2)
              (set_last_seqno seqno
                 (set_last_time_acks_flushed (time_time (ticks w)) c)) in
  set_writes (S (writes w))
    (set_ticks (S (ticks w))
       (with_client (fun _ => if cleared then set_msgids_to_ack [] c1 else c1) w)).

(** The response slot of the request being sent is pending or was
    interrupted. *)
Definition slot_unanswered (slot : nat) (w : World) : Prop :=
  futures w !! slot = None \/
  futures w !! slot = Some (FException InterruptedError).

Definition not_usage_error (e : Exn) : Prop := e <> RuntimeError_cons_required.

(** The session is connected, its read loop runs, and the transport holds
    the salt [s]. *)
Definition running_with_salt (s : Z) (w : World) : Prop :=
  get_server_salt <$> _mtproto (client w) = Some s /\
  _mtproto_loop_task (client w) = Some TaskRunning.

(** The world in which [_process_bad_server_salt] looks [bad_msg_id] up. *)
Definition salt_installed (new_server_salt : Z) (t : MTProto) (w : World) : World :=
  with_client
    (fun c => set_mtproto (Some (set_server_salt new_server_salt t))
                (if bool_decide (get_server_salt t ≠ 0)
                 then set_stable_seqno false c else c)) w.

(** The world after [_rpc_call pr true] re-sent [pr] over the transport [t]
    of a connected session whose flush gate is closed, the write having
    completed: the clock was read once by the flush attempt, an odd seqno
    allocated, the frame written, [pr] registered under the new message id,
    [_seqno_increment] incremented and the 600-second expiry armed. *)
Definition resent (pr : _PendingRequest) (t : MTProto) (w : World) : World :=
  let c := client w in
  let seqno := (_last_seqno c + 1) / 2 * 2 + 1 in
  let id := last_msg_id t + 1 in
  set_timers (timers w ++ [mkTimer 600 (cb_delete_pending_request id) false])
    (set_writes (S (writes w))
       (set_ticks (S (ticks w))
          (with_client
             (fun c =>
                set_seqno_increment (_seqno_increment c + 1)
                  (set_pending_requests (<[id := pr]> (_pending_requests c))
                     (set_mtproto (Some (write seqno (request pr) t).2)
                        (set_last_seqno seqno
                           (set_last_time_acks_flushed (time_time (ticks w)) c)))))
             w))).

(** The world in which the seqno handler looks [bad_msg_id] up. *)
Definition seqno_bumped (w : World) : World :=
  with_client
    (fun c =>
       let inc := Z.min (2 ^ 31 - 1) (Z.shiftl (_seqno_increment c) 1) in
       set_last_seqno (_last_seqno c + inc) (set_seqno_increment inc c)) w.

(** What the loop of [_delete_all_pending_pongs] does to the timer store,
    and the loop of [_delete_all_pending_requests] to the futures. *)
Definition cancel_pong (pongs : gmap Z nat) (ts : list TimerHandle) (k : Z)
  : list TimerHandle :=
  match pongs !! k with
  | Some h => alter cancel_handle h ts
  | None => ts
  end.

Definition interrupt_request (reqs : gmap Z _PendingRequest)
  (fs : gmap nat Resolution) (k : Z) : gmap nat Resolution :=
  match reqs !! k with
  | Some pr =>
      match fs !! response pr with
      | Some _ => fs
      | None => <[response pr := FException InterruptedError]> fs
      end
  | None => fs
  end.

(** The world [_delete_all_pending_data] leaves. *)
Definition torn_down (w : World) : World :=
  let c := client w in
  let ts := foldl (cancel_pong (_pending_pongs c)) (timers w)
              (map_to_list (_pending_pongs c)).*1 in
  let fs := foldl (interrupt_request (_pending_requests c)) (futures w)
              (map_to_list (_pending_requests c)).*1 in
  let ts' := match _pending_ping_request c with
             | Some h => alter cancel_handle h ts
             | None => ts
             end in
  with_client
    (fun c => set_pending_ping_request None
                (set_pending_requests ∅ (set_pending_pongs ∅ c)))
    (set_futures fs (set_timers ts' w)).

(** The world [disconnect] leaves when it returns. *)
Definition disconnected (w : World) : World :=
  with_client (fun c => set_mtproto_loop_task None (set_mtproto None c))
    (match _mtproto (client w), _mtproto_loop_task (client w) with
     | Some t, Some task =>
         set_effects (effects w ++ [task_cancel task; transport_stop t]) (torn_down w)
     | _, _ => torn_down w
     end).

(** The transport handle and the loop task are set and cleared together
    ([_start_mtproto_loop] and [disconnect] are the only writers). *)
Definition session_wf (w : World) : Prop :=
  _mtproto (client w) <> None -> _mtproto_loop_task (client w) <> None.

(** The ids the dispatcher is to enqueue for a message, in dispatch order:
    the id of a message whose body (unwrapped from one gzip layer) is not a
    container, when its seqno is odd; for a container, the ids owed to its
    inner messages and nothing for the container itself. *)
Fixpoint ack_eligible_ids (message : Message) : list Z :=
  match message with
  | mkMessage msg_id seqno message_body =>
      let body := match message_body with
                  | gzip_packed packed_data => packed_data
                  | _ => message_body
                  end in
      match body with
      | msg_container messages =>
          (fix each (ms : list Message) : list Z :=
             match ms with
             | [] => []
             | m :: ms' => ack_eligible_ids m ++ each ms'
             end) messages
      | _ => if seqno mod 2 =? 1 then [msg_id] else []
      end
  end.

(** [logs ids m]: what [m] appends to the ack history is a prefix of [ids],
    and all of [ids] when [m] returns. *)
Definition logs {A} (ids : list Z) (m : M A) : Prop :=
  forall w, exists d,
    ack_log (m w).1 = ack_log w ++ d /\
    d `prefix_of` ids /\
    (forall a, (m w).2 = Ok a -> d = ids).

(** The buffer is the tail of the history that no flush has sent yet. *)
Definition buffer_logged (w : World) : Prop :=
  _msgids_to_ack (client w) `suffix_of` ack_log w.

(** The body the dispatcher classifies, and the inner messages when it is a
    container. *)
Definition unwrapped (body : Structure) : Structure :=
  match body with
  | gzip_packed packed_data => packed_data
  | _ => body
  end.

Definition inner_messages (body : Structure) : option (list Message) :=
  match unwrapped body with
  | msg_container messages => Some messages
  | _ => None
  end.

(** The world in which the flush attempt that follows an enqueue runs. *)
Definition enqueued (msg_id : Z) (w : World) : World :=
  (enqueue_ack msg_id w).1.

(** ** Runs used by the examples *)

(** The session a first [rpc_call] of a fresh client leaves: the ping is the
    first message written, on future 1, the request the second, on future
    0, and the caller is parked on future 0. *)
Definition first_call : World :=
  (rpc_call getConfig (init_world 0)).1.

(** The caller's 600-second [wait_for] on the response expired, which
    cancels future 0; the registration of the request is still there. *)
Definition first_call_timed_out : World := future_cancel 0 first_call.

(** One turn of the read loop. *)
Definition turn (w : World) (m : Message) : World :=
  (_mtproto_loop_turn m w).1.

(** The world after the dispatcher handled a [bad_msg_notification] with
    error code 32 for [bad_msg_id]. *)
Definition seqno_retry (bad_msg_id : Z) (w : World) : World :=
  (_process_telegram_message_body (bad_msg_notification bad_msg_id 32) w).1.

(** After the first call, with [_stable_seqno] still false, the read loop
    takes 32 updates. *)
Definition backlog_32 : World := foldl turn first_call (updates 32).

(** The same with 31 updates, then an [rpc_result] under an even seqno. *)
Definition backlog_31_stable : World :=
  (_process_telegram_message even_rpc_result
     (foldl turn first_call (updates 31))).1.

(** The 32 updates arrive after the caller of the first call timed out. *)
Definition backlog_32_timed_out : World :=
  foldl turn first_call_timed_out (updates 32).

(** ** Definitions used by the further properties *)

(** The flush gate is closed: there is nothing to acknowledge, or the seqno
    is not known to be stable. *)
Definition gate_closed (w : World) : Prop :=
  _msgids_to_ack (client w) = [] \/ _stable_seqno (client w) = false.

(** The world in which [_rpc_call] awaits the write it made for [pr] over
    the transport [t] of a connected session whose flush gate is closed:
    the flush attempt read the clock, the next odd seqno was allocated, the
    frame written and [pr] registered under the new message id. *)
Definition sent (pr : _PendingRequest) (t : MTProto) (w : World) : World :=
  let seqno := (_last_seqno (client w) + 1) / 2 * 2 + 1 in
  let id := last_msg_id t + 1 in
  set_writes (S (writes w))
    (set_ticks (S (ticks w))
       (with_client
          (fun c =>
             set_pending_requests (<[id := pr]> (_pending_requests c))
               (set_mtproto (Some (write seqno (request pr) t).2)
                  (set_last_seqno seqno
                     (set_last_time_acks_flushed (time_time (ticks w)) c))))
          w)).

(** [self._mtproto.write(seqno, **pending_request.request)] passes the
    entries of the request as keyword arguments.  A key that names a
    parameter of [write] ([self], [seqno]) makes that call raise
    [TypeError] before anything is written or registered; the transport of
    this model takes every dictionary, so what is stated about the sending
    of a caller's request is stated for requests without such a key. *)
Definition passes_as_kwargs (message : Dict) : Prop :=
  message !! "self" = None /\ message !! "seqno" = None.

(** [self._seqno_increment += 1] *)
Definition bump_seqno_increment (c : Client) : Client :=
  set_seqno_increment (_seqno_increment c + 1) c.

(** [dict(_cons="ping", ping_id=new_random_ping_id)] *)
Definition ping_request (ping_id : Z) : Dict :=
  <["_cons" := VStr "ping"]> (<["ping_id" := VInt ping_id]> ∅).

(** The world in which [_create_new_ping_request] awaits the write of its
    ping over the transport [t]: a ping id drawn, the next odd seqno
    allocated, a future created for the ping, the 10-second disconnect
    timer armed and kept under the ping id, the frame written and the ping
    registered under its message id. *)
Definition pinged (t : MTProto) (w : World) : World :=
  let ping_id := randrange (draws w) in
  let seqno := (_last_seqno (client w) + 1) / 2 * 2 + 1 in
  let id := last_msg_id t + 1 in
  set_writes (S (writes w))
    (set_timers (timers w ++ [mkTimer 10 cb_disconnect false])
       (set_next_future (S (next_future w))
          (set_draws (S (draws w))
             (with_client
                (fun c =>
                   set_pending_requests
                     (<[id := mkPendingRequest (next_future w) (ping_request ping_id)]>
                        (_pending_requests c))
                     (set_mtproto (Some (write seqno (ping_request ping_id) t).2)
                        (set_pending_pongs
                           (<[ping_id := length (timers w)]> (_pending_pongs c))
                           (set_last_seqno seqno c))))
                w)))).

(** The world in which [_start_mtproto_loop] has installed a new transport
    and created the read-loop task. *)
Definition restarted (w : World) : World :=
  with_client
    (fun c => set_mtproto_loop_task (Some TaskRunning)
                (set_mtproto (Some new_MTProto) c)) w.

(** ** The session as the event loop drives it *)

(** What the loop runs when a timer fires: the callbacks handed to
    [call_later].  [_create_new_ping_request_sync] wraps the coroutine in a
    task, where an exception it raises stays. *)
Definition run_callback (cb : Callback) : M unit :=
  match cb with
  | cb_disconnect => disconnect
  | cb_delete_pending_request msg_id => _delete_pending_request msg_id true
  | cb_create_new_ping_request_sync => swallow _create_new_ping_request
  end.

(** A timer that was cancelled does not fire. *)
Definition fire (h : nat) : M unit :=
  fun w =>
    match timers w !! h with
    | Some t => if cancelled t then (w, Ok tt) else run_callback (callback t) w
    | None => (w, Ok tt)
    end.

(** What can happen to a client between two of its suspension points: a
    caller starts [rpc_call] or calls [disconnect]; the read loop, while its
    task runs, takes a message from the transport or ends on a read
    failure; a timer fires; the 600-second wait of a caller expires, which
    cancels the future it awaited. *)
Inductive Event :=
| ev_rpc_call (message : Dict)
| ev_disconnect
| ev_received (m : Message)
| ev_read_failed
| ev_timer (h : nat)
| ev_wait_expired (slot : nat).

Definition loop_running (w : World) : bool :=
  match _mtproto (client w), _mtproto_loop_task (client w) with
  | Some _, Some TaskRunning => true
  | _, _ => false
  end.

Definition after (e : Event) (w : World) : World :=
  match e with
  | ev_rpc_call message => (rpc_call message w).1
  | ev_disconnect => (disconnect w).1
  | ev_received m =>
      if loop_running w then (_mtproto_loop_turn m w).1 else w
  | ev_read_failed =>
      if loop_running w
      then with_client (set_mtproto_loop_task (Some TaskFinished)) w
      else w
  | ev_timer h => (fire h w).1
  | ev_wait_expired slot => future_cancel slot w
  end.

Definition run (es : list Event) (w : World) : World :=
  foldl (fun w e => after e w) w es.

(** [_seqno_increment] is positive and [_last_seqno] is at least [L]. *)
Definition counters_above (L : Z) (w : World) : Prop :=
  1 <= _seqno_increment (client w) /\ L <= _last_seqno (client w).

(** A transport handle comes with a loop task, [_seq_no] is as the
    constructor set it, and the counters are as above. *)
Definition session_inv (L : Z) (w : World) : Prop :=
  (session_wf w /\ _seq_no (client w) = -1) /\ counters_above L w.

(** ** What goes out on the wire *)

(** [leads Pre m Post]: from a world in [Pre], [m] ends in a world in
    [Post], whether it returns or raises. *)
Definition leads {A} (Pre : World -> Prop) (m : M A) (Post : World -> Prop) : Prop :=
  forall w, Pre w -> Post (m w).1.

(** A frame is content under an odd seqno, or an acknowledgment of at least
    one message id under an even seqno. *)
Definition frame_ok (f : Frame) : Prop :=
  f_seqno f mod 2 = 1 \/
  (f_seqno f mod 2 = 0 /\ exists id ids, f_fields f = msgs_ack (id :: ids)).

(** The frames written to [t], in the order they were written, carry
    strictly increasing seqnos, none above [bound]. *)
Definition wire_ok (bound : Z) (t : MTProto) : Prop :=
  StronglySorted (fun f g => f_seqno f < f_seqno g) (outbox t) /\
  Forall (fun f => f_seqno f <= bound) (outbox t) /\
  Forall frame_ok (outbox t).

Definition wire_inv (w : World) : Prop :=
  1 <= _seqno_increment (client w) /\
  forall t, _mtproto (client w) = Some t -> wire_ok (_last_seqno (client w)) t.

(** The seqno [s] was just allocated: it is the counter, and above every
    frame written so far. *)
Definition ready_to_write (s : Z) (w : World) : Prop :=
  wire_inv w /\
  _last_seqno (client w) = s /\
  forall t, _mtproto (client w) = Some t ->
            Forall (fun f => f_seqno f < s) (outbox t).

(** The part of the client that the two predicates above read. *)
Definition wire_view (w : World) : option MTProto * Z * Z :=
  (_mtproto (client w), _last_seqno (client w), _seqno_increment (client w)).

(** [m] leaves that part alone. *)
Definition neutral {A} (m : M A) : Prop :=
  forall v, keeps (fun w => wire_view w = v) (fun _ => True) m.

(** * Properties *)

(** ** Reasoning about computations *)

Lemma bind_ok_inv {A B} (m : M A) (k : A -> M B) (w w' : World) (b : B) :
  bind m k w = (w', Ok b) ->
  exists a w1, m w = (w1, Ok a) /\ k a w1 = (w', Ok b).
Proof.
  unfold bind. destruct (m w) as [w1 [a|e]]; [eauto | discriminate].
Qed.

Lemma keeps_ret {A} I P (a : A) : keeps I P (ret a).
Proof. intros w Hw. split; [exact Hw | discriminate]. Qed.

Lemma keeps_bind {A B} I P (m : M A) (k : A -> M B) :
  keeps I P m -> (forall a, keeps I P (k a)) -> keeps I P (bind m k).
Proof.
  intros Hm Hk w Hw. unfold bind. destruct (Hm w Hw) as [H1 H2].
  destruct (m w) as [w1 [a|e]]; cbn in *.
  - apply Hk, H1.
  - split; [exact H1|]. intros e' [= <-]. apply H2. reflexivity.
Qed.

Lemma keeps_for_each {A} I P (l : list A) (f : A -> M unit) :
  (forall a, keeps I P (f a)) -> keeps I P (for_each l f).
Proof.
  intros Hf. induction l as [|a l IH]; cbn.
  - apply keeps_ret.
  - apply keeps_bind; [apply Hf | intros _; exact IH].
Qed.

Lemma keeps_try_except {A} I P (m : M A) caught (handler : M A) :
  keeps I P m -> keeps I P handler -> keeps I P (try_except m caught handler).
Proof.
  intros Hm Hh w Hw. unfold try_except. destruct (Hm w Hw) as [H1 H2].
  destruct (m w) as [w1 [a|e]]; cbn in *.
  - split; [exact H1 | discriminate].
  - destruct (caught e); [apply Hh, H1 | split; [exact H1 | exact H2]].
Qed.

Lemma keeps_swallow I P P' (m : M unit) :
  keeps I P' m -> keeps I P (swallow m).
Proof.
  intros Hm w Hw. unfold swallow. cbn. split; [apply Hm, Hw | discriminate].
Qed.

(** One step through the structure of a computation. *)
Ltac keeps_methods :=
  unfold rpc_call, _rpc_call, _start_mtproto_loop, _create_new_ping_request,
    _flush_msgids_to_ack_if_needed, _flush_msgids_to_ack,
    _delete_all_pending_data, _delete_all_pending_requests,
    _delete_all_pending_pongs, _delete_pending_request, _delete_pending_pong,
    _process_telegram_message_body, _process_rpc_result, _process_pong,
    _process_bad_server_salt,
    _process_bad_msg_notification_msg_seqno_too_low,
    disconnect.

Ltac keeps_step :=
  lazymatch goal with
  | |- keeps _ _ ensure_mtproto_loop =>
      first [assumption | unfold ensure_mtproto_loop]
  | |- keeps _ _ (bind _ _) => apply keeps_bind; [|intros ?]
  | |- keeps _ _ (ret _) => apply keeps_ret
  | |- keeps _ _ (for_each _ _) => apply keeps_for_each; intros ?
  | |- keeps _ _ (try_except _ _ _) => apply keeps_try_except
  | |- keeps _ _ (match ?x with _ => _ end) => destruct x
  | |- keeps _ _ _ => progress keeps_methods
  end.

(** The primitive operations, by computation; [fin] closes what is left of
    the invariant and of the exception predicate. *)
Ltac keeps_prim fin :=
  let w := fresh "w" in
  let Hw := fresh "Hw" in
  intros w Hw;
  unfold raise, get_client, modify_client, on_client, create_future,
    future_done, set_result, set_exception, resolve, call_later,
    timer_cancel, log_effect, time_now, random_ping_id, mtproto_write,
    wait_for_write, wait_for_response, enqueue_ack, ret,
    _get_next_odd_seqno, _get_next_even_seqno, write in *;
  cbn in *;
  repeat (case_match; cbn in * );
  (split; [| let e := fresh "e" in let H := fresh "H" in
             intros e H; try discriminate H; try (injection H as <-)]);
  fin.

Ltac keeps_go fin :=
  keeps_methods; repeat keeps_step; keeps_prim fin.

(** ** The sequence allocator *)

Lemma next_odd_spec (c : Client) :
  let '(v, c') := _get_next_odd_seqno c in
  v mod 2 = 1 /\ _last_seqno c < v /\ _last_seqno c' = v.
Proof.
  cbn. repeat split; Z.to_euclidean_division_equations; lia.
Qed.

Lemma next_even_spec (c : Client) :
  let '(v, c') := _get_next_even_seqno c in
  v mod 2 = 0 /\ _last_seqno c < v /\ _last_seqno c' = v.
Proof.
  cbn. repeat split; Z.to_euclidean_division_equations; lia.
Qed.

Lemma alloc_spec (k : AllocCall) (c : Client) :
  has_parity k (alloc k c).1 /\
  _last_seqno c < (alloc k c).1 /\
  _last_seqno (alloc k c).2 = (alloc k c).1.
Proof.
  destruct k; [apply (next_odd_spec c) | apply (next_even_spec c)].
Qed.

Lemma alloc_run_above (ks : list AllocCall) :
  forall c, Forall (Z.lt (_last_seqno c)) (alloc_run ks c) /\
            StronglySorted Z.lt (alloc_run ks c).
Proof.
  induction ks as [|k ks IH]; intros c; cbn [alloc_run].
  - split; constructor.
  - destruct (alloc k c) as [v c'] eqn:E.
    pose proof (alloc_spec k c) as (_ & Hlt & Hlast). rewrite E in Hlt, Hlast.
    cbn in Hlt, Hlast.
    destruct (IH c') as [Hall Hsort]. rewrite Hlast in Hall.
    split.
    + constructor; [exact Hlt|].
      eapply Forall_impl; [exact Hall|]. cbn. intros x Hx. lia.
    + constructor; assumption.
Qed.

Lemma alloc_run_parity (ks : list AllocCall) :
  forall c, Forall2 has_parity ks (alloc_run ks c).
Proof.
  induction ks as [|k ks IH]; intros c; cbn [alloc_run]; [constructor|].
  destruct (alloc k c) as [v c'] eqn:E.
  pose proof (alloc_spec k c) as (Hpar & _). rewrite E in Hpar.
  constructor; [exact Hpar | apply IH].
Qed.

(** C1.  Whatever the counter holds, each allocator call returns a value
    of the requested parity that is strictly greater than the [_last_seqno]
    held before the call and becomes the new [_last_seqno]; so the values
    returned by any interleaving of odd and even calls carry the requested
    parities, are strictly increasing from the initial [_last_seqno] on,
    and contain no duplicate. *)
Theorem C1_allocator_increasing_parity (ks : list AllocCall) (c : Client) :
  (forall k c0, has_parity k (alloc k c0).1 /\
                _last_seqno c0 < (alloc k c0).1 /\
                _last_seqno (alloc k c0).2 = (alloc k c0).1) /\
  Forall2 has_parity ks (alloc_run ks c) /\
  StronglySorted Z.lt (_last_seqno c :: alloc_run ks c) /\
  NoDup (alloc_run ks c).
Proof.
  destruct (alloc_run_above ks c) as [Hall Hsort].
  split; [intros; apply alloc_spec|].
  split; [apply alloc_run_parity|].
  split; [constructor; assumption|].
  clear Hall. induction Hsort as [|x l _ IH Hx]; constructor; [|exact IH].
  intros Hin. rewrite Forall_forall in Hx. specialize (Hx _ Hin). lia.
Qed.

(** ** The ack batcher *)

Lemma flush_gate_closed (w : World) :
  _msgids_to_ack (client w) = [] \/ _stable_seqno (client w) = false ->
  _flush_msgids_to_ack w = (after_flush_noop w, Ok tt).
Proof.
  intros H. unfold _flush_msgids_to_ack, after_flush_noop, bind, time_now,
    modify_client, get_client, ret. cbn.
  destruct H as [-> | ->]; [reflexivity|].
  destruct (_msgids_to_ack (client w)); reflexivity.
Qed.

Lemma flush_gate_open (w : World) (t : MTProto) :
  _msgids_to_ack (client w) <> [] ->
  _stable_seqno (client w) = true ->
  _mtproto (client w) = Some t ->
  _flush_msgids_to_ack w =
    match write_outcome (writes w) with
    | WriteDone => (after_flush_write w t true, Ok tt)
    | WriteFailed e => (after_flush_write w t false, Raise (WriteRaised e))
    end.
Proof.
  intros Hne Hst Ht.
  unfold _flush_msgids_to_ack, after_flush_write, bind, time_now,
    modify_client, get_client, on_client, mtproto_write, wait_for_write, ret, raise.
  cbn. destruct (_msgids_to_ack (client w)) as [|i ids] eqn:E; [congruence|].
  rewrite Hst. cbn. rewrite Ht. cbn.
  destruct (write_outcome (writes w)); reflexivity.
Qed.

(** C5 (amended).  Every invocation of [_flush_msgids_to_ack] first sets
    [_last_time_acks_flushed] to the clock reading.  When it finds the
    buffer empty or [_stable_seqno] false it does nothing else: it returns
    normally, nothing is written to the transport and the buffer, the seqno
    counter and all other state are unchanged.  With a non-empty buffer and
    [_stable_seqno] true it allocates an even seqno above [_last_seqno] and
    hands the transport one [msgs_ack] frame carrying the buffered ids; when
    the write completes the buffer is replaced by the empty list, and when
    the write fails the exception propagates and the buffer is kept. *)
Theorem C5_flush_msgids_to_ack (w : World) :
  (_msgids_to_ack (client w) = [] \/ _stable_seqno (client w) = false ->
   _flush_msgids_to_ack w = (after_flush_noop w, Ok tt) /\
   _mtproto (client (after_flush_noop w)) = _mtproto (client w) /\
   writes (after_flush_noop w) = writes w /\
   _msgids_to_ack (client (after_flush_noop w)) = _msgids_to_ack (client w) /\
   _last_seqno (client (after_flush_noop w)) = _last_seqno (client w) /\
   _last_time_acks_flushed (client (after_flush_noop w)) = time_time (ticks w)) /\
  (forall t,
     _msgids_to_ack (client w) <> [] ->
     _stable_seqno (client w) = true ->
     _mtproto (client w) = Some t ->
     let seqno := (_last_seqno (client w) / 2 + 1) * 2 in
     let frame := mkFrame (last_msg_id t + 1) seqno (msgs_ack (_msgids_to_ack (client w))) in
     _flush_msgids_to_ack w =
       match write_outcome (writes w) with
       | WriteDone => (after_flush_write w t true, Ok tt)
       | WriteFailed e => (after_flush_write w t false, Raise (WriteRaised e))
       end /\
     seqno mod 2 = 0 /\ _last_seqno (client w) < seqno /\
     (forall cleared,
        outbox <$> _mtproto (client (after_flush_write w t cleared)) = Some (outbox t ++ [frame]) /\
        _last_seqno (client (after_flush_write w t cleared)) = seqno /\
        _last_time_acks_flushed (client (after_flush_write w t cleared)) = time_time (ticks w) /\
        _msgids_to_ack (client (after_flush_write w t cleared)) =
          if cleared then [] else _msgids_to_ack (client w))).
Proof.
  split.
  - intros H. split; [apply flush_gate_closed, H|]. repeat split.
  - intros t Hne Hst Ht seqno frame.
    split; [apply flush_gate_open; assumption|].
    pose proof (next_even_spec (client w)) as (Hpar & Hlt & _). cbn in Hpar, Hlt.
    split; [exact Hpar|]. split; [exact Hlt|].
    intros cleared. destruct cleared; repeat split.
Qed.

(** ** [rpc_result] *)

(** C3 (amended).  [_process_rpc_result] sets [_stable_seqno] to true on
    every [rpc_result], before it looks the request up.  When [req_msg_id]
    is not a key of the pending registry nothing else changes: the registry,
    every response slot and the rest of the world are as before, and the
    call returns normally. *)
Theorem C3_process_rpc_result (req_msg_id : Z) (result : Structure) (w : World) :
  _stable_seqno (client (_process_rpc_result req_msg_id result w).1) = true /\
  (_pending_requests (client w) !! req_msg_id = None ->
   _process_rpc_result req_msg_id result w =
     (with_client (set_stable_seqno true) w, Ok tt)).
Proof.
  unfold _process_rpc_result, bind, modify_client, get_client, ret,
    set_result, resolve. cbn.
  destruct (_pending_requests (client w) !! req_msg_id) as [pr|] eqn:E; cbn.
  - split; [|discriminate].
    destruct (futures w !! response pr); reflexivity.
  - split; reflexivity.
Qed.

(** ** [rpc_call] *)

Lemma rpc_call_keeps (pr : _PendingRequest) (no_response : bool) :
  keeps (slot_unanswered (response pr)) not_usage_error (_rpc_call pr no_response).
Proof.
  unfold slot_unanswered, not_usage_error.
  keeps_go ltac:(try discriminate; try assumption).
  all: try (rewrite lookup_insert; case_decide; [right; reflexivity | assumption]).
  all: destruct Hw as [Hw|Hw]; simplify_eq; auto.
Qed.

(** C7.  [rpc_call] raises the usage error exactly when ["_cons"] is not a
    key of the request, and then it raises before anything else happens:
    the world it leaves is the world it found.  (The future it creates for
    a well-formed request is new, hence pending: [next_future] names no
    resolved future.) *)
Theorem C7_rpc_call_usage_error (message : Dict) (w : World) :
  futures w !! next_future w = None ->
  ((rpc_call message w).2 = Raise RuntimeError_cons_required <->
   message !! "_cons" = None) /\
  (message !! "_cons" = None ->
   rpc_call message w = (w, Raise RuntimeError_cons_required)).
Proof.
  intros Hfresh. unfold rpc_call.
  destruct (message !! "_cons") as [v|] eqn:E.
  - split; [|discriminate]. split; [|discriminate].
    intros Hraise. exfalso.
    destruct (rpc_call_keeps (mkPendingRequest (next_future w) message) false
                (set_next_future (S (next_future w)) w)) as [_ Hk];
      [left; exact Hfresh|].
    unfold bind, create_future in Hraise.
    destruct (_rpc_call (mkPendingRequest (next_future w) message) false
                (set_next_future (S (next_future w)) w)) as [w' [a|e]];
      [discriminate|].
    cbn in Hraise. apply (Hk e eq_refl). congruence.
  - split; [|reflexivity]. split; reflexivity.
Qed.

(** ** Salt recovery *)

Lemma bind_ret_world {A} (m : M A) (w : World) :
  (bind m (fun _ => ret tt) w).1 = (m w).1.
Proof. unfold bind, ret. destruct (m w) as [w' [a|e]]; reflexivity. Qed.

Lemma rpc_call_keeps_stable_seqno (b : bool) (pr : _PendingRequest) (no_response : bool) :
  keeps (fun w => _stable_seqno (client w) = b) (fun _ => True)
    (_rpc_call pr no_response).
Proof.
  keeps_go ltac:(try exact I; try assumption).
Qed.

Lemma ensure_keeps_running_with_salt (s : Z) (P : Exn -> Prop) :
  keeps (running_with_salt s) P ensure_mtproto_loop.
Proof.
  intros w HI. pose proof HI as [Hs Ht].
  unfold ensure_mtproto_loop, bind, get_client.
  destruct (_mtproto (client w)); [|discriminate]. rewrite Ht. cbn.
  split; [exact HI | discriminate].
Qed.

Lemma rpc_call_keeps_salt (s : Z) (pr : _PendingRequest) (no_response : bool) :
  keeps (running_with_salt s) (fun _ => True) (_rpc_call pr no_response).
Proof.
  pose proof (ensure_keeps_running_with_salt s (fun _ => True)) as Hens.
  keeps_methods; repeat keeps_step; unfold running_with_salt in *;
    keeps_prim ltac:(try exact I; try assumption).
  all: destruct Hw as [Hs Ht]; simplify_eq; split; auto.
Qed.

Lemma process_bad_server_salt_eq (bad_msg_id new_server_salt : Z)
  (w : World) (t : MTProto) :
  _mtproto (client w) = Some t ->
  _process_bad_server_salt bad_msg_id new_server_salt w =
    match _pending_requests (client w) !! bad_msg_id with
    | Some bad_request =>
        bind (_rpc_call bad_request true) (fun _ => ret tt)
          (with_client
             (fun c => set_pending_requests (delete bad_msg_id (_pending_requests c)) c)
             (salt_installed new_server_salt t w))
    | None => (salt_installed new_server_salt t w, Ok tt)
    end.
Proof.
  intros Hm.
  unfold _process_bad_server_salt, salt_installed, bind, get_client,
    modify_client, ret. rewrite Hm.
  destruct (bool_decide (get_server_salt t ≠ 0)); cbn;
    destruct (_pending_requests (client w) !! bad_msg_id); reflexivity.
Qed.

(** C4.  In a connected session whose read loop runs, processing a
    [bad_server_salt] resets [_stable_seqno] to false exactly when the salt
    the transport held was not zero (when it was zero [_stable_seqno] is
    left as it was), and in every case, whether the culprit is re-sent or
    not and whether the re-send returns or raises, the transport ends up
    holding [new_server_salt]. *)
Theorem C4_process_bad_server_salt (bad_msg_id new_server_salt : Z)
  (w : World) (t : MTProto) :
  _mtproto (client w) = Some t ->
  _mtproto_loop_task (client w) = Some TaskRunning ->
  (get_server_salt t <> 0 ->
   _stable_seqno (client (_process_bad_server_salt bad_msg_id new_server_salt w).1)
   = false) /\
  (get_server_salt t = 0 ->
   _stable_seqno (client (_process_bad_server_salt bad_msg_id new_server_salt w).1)
   = _stable_seqno (client w)) /\
  get_server_salt <$>
    _mtproto (client (_process_bad_server_salt bad_msg_id new_server_salt w).1)
  = Some new_server_salt.
Proof.
  intros Hm Ht.
  set (w' := (_process_bad_server_salt bad_msg_id new_server_salt w).1).
  assert (_stable_seqno (client w') =
            _stable_seqno (client (salt_installed new_server_salt t w)) /\
          running_with_salt new_server_salt w') as [Hb [Hs _]].
  { subst w'. rewrite (process_bad_server_salt_eq _ _ _ _ Hm).
    assert (running_with_salt new_server_salt (salt_installed new_server_salt t w))
      as Hrun.
    { split; [reflexivity|]. unfold salt_installed. cbn.
      destruct (bool_decide _); exact Ht. }
    destruct (_pending_requests (client w) !! bad_msg_id) as [pr|].
    - rewrite bind_ret_world. split.
      + apply (rpc_call_keeps_stable_seqno _ pr true). reflexivity.
      + apply (rpc_call_keeps_salt new_server_salt pr true).
        destruct Hrun as [H1 H2]. split; [exact H1 | exact H2].
    - split; [reflexivity | exact Hrun]. }
  split; [|split].
  - intros Hne. rewrite Hb. cbn. rewrite bool_decide_eq_true_2; auto.
  - intros He. rewrite Hb. cbn. rewrite bool_decide_eq_false_2; auto.
  - exact Hs.
Qed.

(** ** Seqno recovery *)

Lemma rpc_call_resend_eq (pr : _PendingRequest) (t : MTProto) (v : Value) (w : World) :
  _mtproto (client w) = Some t ->
  _mtproto_loop_task (client w) = Some TaskRunning ->
  _stable_seqno (client w) = false ->
  request pr !! "_cons" = Some v ->
  write_outcome (writes w) = WriteDone ->
  _rpc_call pr true w = (resent pr t w, Ok (Returned None)).
Proof.
  intros Hm Ht Hs Hc Hw.
  destruct w as [c fs nf ts es tk dr wr al].
  destruct c as [sq mt ids lf ls st inc task reqs pongs pp].
  cbn in *. subst.
  unfold _rpc_call, ensure_mtproto_loop, _flush_msgids_to_ack, resent, bind,
    get_client, modify_client, on_client, time_now, mtproto_write,
    try_except, wait_for_write, call_later, ret, raise. cbn.
  destruct ids; cbn; rewrite Hc; cbn; rewrite Hw; reflexivity.
Qed.

Lemma process_seqno_too_low_eq (bad_msg_id : Z) (w : World) :
  _process_bad_msg_notification_msg_seqno_too_low bad_msg_id w =
    match _pending_requests (client w) !! bad_msg_id with
    | Some bad_request =>
        bind (_rpc_call bad_request true) (fun _ => ret tt)
          (with_client
             (fun c => set_pending_requests (delete bad_msg_id (_pending_requests c)) c)
             (seqno_bumped w))
    | None => (seqno_bumped w, Ok tt)
    end.
Proof.
  unfold _process_bad_msg_notification_msg_seqno_too_low, seqno_bumped, bind,
    get_client, modify_client, ret. cbn.
  destruct (_pending_requests (client w) !! bad_msg_id); reflexivity.
Qed.

(** C2 (amended).  With [_stable_seqno] false, a [bad_msg_notification] with
    error code 32 sets [_seqno_increment] to
    [min(2^31 - 1, _seqno_increment << 1)] and then advances [_last_seqno] by
    exactly that new value.  When [bad_msg_id] is not pending this is all.
    When it is pending, the request is detached and re-sent through
    [_rpc_call] in no-response mode, which (the session being connected and
    the write completing) allocates the next odd seqno above
    the advanced counter, writes the request, registers the same pending
    request under the new message id and increments [_seqno_increment] by
    one more.  So, starting from [_seqno_increment = 1], a notification that
    re-sends leaves [_seqno_increment = 3] (it is 2 only when nothing is
    re-sent), and from 3 the next one leaves 7. *)
Theorem C2_seqno_too_low (bad_msg_id : Z) (w : World) :
  _stable_seqno (client w) = false ->
  let c := client w in
  let inc := Z.min (2 ^ 31 - 1) (Z.shiftl (_seqno_increment c) 1) in
  (_pending_requests c !! bad_msg_id = None ->
   _process_telegram_message_body (bad_msg_notification bad_msg_id 32) w =
     (seqno_bumped w, Ok tt) /\
   _seqno_increment (client (seqno_bumped w)) = inc /\
   _last_seqno (client (seqno_bumped w)) = _last_seqno c + inc) /\
  (forall pr t v,
     _pending_requests c !! bad_msg_id = Some pr ->
     _mtproto c = Some t ->
     _mtproto_loop_task c = Some TaskRunning ->
     request pr !! "_cons" = Some v ->
     write_outcome (writes w) = WriteDone ->
     exists w',
       _process_telegram_message_body (bad_msg_notification bad_msg_id 32) w =
         (w', Ok tt) /\
       _seqno_increment (client w') = inc + 1 /\
       _last_seqno (client w') = (_last_seqno c + inc + 1) / 2 * 2 + 1 /\
       _last_seqno c + inc < _last_seqno (client w') /\
       _pending_requests (client w') =
         <[last_msg_id t + 1 := pr]> (delete bad_msg_id (_pending_requests c)) /\
       outbox <$> _mtproto (client w') =
         Some (outbox t ++ [mkFrame (last_msg_id t + 1) (_last_seqno (client w')) (request pr)]) /\
       futures w' = futures w) /\
  (_seqno_increment c = 1 -> inc = 2) /\
  (_seqno_increment c = 3 -> inc = 6).
Proof.
  intros Hst c inc.
  assert (_process_telegram_message_body (bad_msg_notification bad_msg_id 32) w =
            _process_bad_msg_notification_msg_seqno_too_low bad_msg_id w) as Hbody.
  { unfold _process_telegram_message_body, bind, get_client. rewrite Hst. reflexivity. }
  rewrite Hbody, process_seqno_too_low_eq. fold c.
  split; [|split; [|split]].
  - intros ->. repeat split.
  - intros pr t v -> Hm Ht Hc Hw.
    eexists. split.
    + unfold bind at 1.
      rewrite (rpc_call_resend_eq pr t v); [reflexivity|assumption..].
    + pose proof (next_odd_spec (set_last_seqno (_last_seqno c + inc) c))
        as (_ & Hlt & _). cbn in Hlt.
      repeat split. exact Hlt.
  - intros H1. subst inc. rewrite H1. reflexivity.
  - intros H3. subst inc. rewrite H3. reflexivity.
Qed.

(** ** [disconnect] *)

Lemma delete_pongs_loop (ks : list Z) :
  forall w,
    for_each ks (fun k => _delete_pending_pong k false) w =
      (set_timers (foldl (cancel_pong (_pending_pongs (client w))) (timers w) ks) w,
       Ok tt).
Proof.
  induction ks as [|k ks IH]; intros w.
  - destruct w. reflexivity.
  - cbn [for_each foldl]. unfold bind at 1.
    unfold _delete_pending_pong at 1, bind, get_client, timer_cancel, ret, cancel_pong at 2.
    destruct (_pending_pongs (client w) !! k) as [h|]; cbn.
    + rewrite IH. reflexivity.
    + rewrite IH. reflexivity.
Qed.

Lemma delete_requests_loop (ks : list Z) :
  forall w,
    for_each ks (fun k => _delete_pending_request k false) w =
      (set_futures (foldl (interrupt_request (_pending_requests (client w))) (futures w) ks) w,
       Ok tt).
Proof.
  induction ks as [|k ks IH]; intros w.
  - destruct w. reflexivity.
  - cbn [for_each foldl]. unfold bind at 1.
    unfold _delete_pending_request at 1, bind, get_client, future_done,
      set_exception, resolve, ret, interrupt_request at 2.
    destruct (_pending_requests (client w) !! k) as [pr|]; cbn.
    + destruct (futures w !! response pr) as [r|] eqn:E; cbn.
      * rewrite IH. reflexivity.
      * rewrite ?E. cbn. rewrite IH. reflexivity.
    + rewrite IH. reflexivity.
Qed.

Lemma delete_all_pending_data_eq (w : World) :
  _delete_all_pending_data w = (torn_down w, Ok tt).
Proof.
  unfold _delete_all_pending_data, _delete_all_pending_pongs,
    _delete_all_pending_requests.
  unfold bind at 1. unfold bind at 1. unfold get_client at 1.
  unfold bind at 1. rewrite delete_pongs_loop.
  unfold modify_client at 1.
  unfold bind at 1. unfold bind at 1. unfold get_client at 1.
  unfold bind at 1. rewrite delete_requests_loop.
  unfold modify_client at 1.
  unfold bind, get_client, timer_cancel, modify_client, ret, torn_down. cbn.
  destruct (_pending_ping_request (client w)); reflexivity.
Qed.

Lemma disconnect_eq (w : World) :
  disconnect w =
    match _mtproto (client w), _mtproto_loop_task (client w) with
    | Some _, None => (torn_down w, Raise AttributeError)
    | _, _ => (disconnected w, Ok tt)
    end.
Proof.
  unfold disconnect. unfold bind at 1. rewrite delete_all_pending_data_eq.
  unfold bind, get_client, log_effect, modify_client, raise, ret, disconnected. cbn.
  destruct (_mtproto (client w)) as [t|]; [|reflexivity].
  destruct (_mtproto_loop_task (client w)) as [task|]; cbn; [|reflexivity].
  rewrite <- app_assoc. reflexivity.
Qed.

Lemma torn_down_fixed (w : World) :
  _pending_pongs (client w) = ∅ ->
  _pending_requests (client w) = ∅ ->
  _pending_ping_request (client w) = None ->
  torn_down w = w.
Proof.
  destruct w as [c fs nf ts es tk dr wr al].
  destruct c as [sq mt ids lf ls st inc task reqs pongs pp].
  cbn. intros -> -> ->. unfold torn_down. cbn.
  rewrite !map_to_list_empty. reflexivity.
Qed.

Lemma interrupt_request_slot reqs fs k s :
  interrupt_request reqs fs k !! s = fs !! s \/
  (fs !! s = None /\
   interrupt_request reqs fs k !! s = Some (FException InterruptedError)).
Proof.
  unfold interrupt_request.
  destruct (reqs !! k) as [pr|]; [|by left].
  destruct (fs !! response pr) eqn:E; [by left|].
  destruct (decide (response pr = s)) as [<-|Hne].
  - right. by rewrite lookup_insert_eq.
  - left. by rewrite lookup_insert_ne.
Qed.

Lemma interrupt_loop_slot reqs ks :
  forall fs s,
    foldl (interrupt_request reqs) fs ks !! s = fs !! s \/
    (fs !! s = None /\
     foldl (interrupt_request reqs) fs ks !! s = Some (FException InterruptedError)).
Proof.
  induction ks as [|k ks IH]; intros fs s; cbn [foldl]; [by left|].
  destruct (IH (interrupt_request reqs fs k) s) as [H1|[H1 H2]];
    destruct (interrupt_request_slot reqs fs k s) as [H3|[H3 H4]].
  - left. congruence.
  - right. split; congruence.
  - right. split; congruence.
  - congruence.
Qed.

Lemma interrupt_loop_done reqs ks :
  forall fs k pr,
    k ∈ ks -> reqs !! k = Some pr ->
    is_Some (foldl (interrupt_request reqs) fs ks !! response pr).
Proof.
  induction ks as [|k0 ks IH]; intros fs k pr Hin Hk; [by apply elem_of_nil in Hin|].
  cbn [foldl]. apply elem_of_cons in Hin as [->|Hin]; [|by eapply IH].
  assert (is_Some (interrupt_request reqs fs k0 !! response pr)) as [r Hr].
  { unfold interrupt_request. rewrite Hk.
    destruct (fs !! response pr) eqn:E; [by rewrite E|].
    rewrite lookup_insert_eq. eauto. }
  destruct (interrupt_loop_slot reqs ks (interrupt_request reqs fs k0) (response pr))
    as [H1|[H1 _]]; [rewrite H1, Hr; eauto | congruence].
Qed.

Lemma cancel_handle_twice (o : option TimerHandle) :
  cancel_handle <$> (cancel_handle <$> o) = cancel_handle <$> o.
Proof. by destruct o. Qed.

Lemma cancel_pong_handle pongs ts k i :
  cancel_pong pongs ts k !! i = ts !! i \/
  cancel_pong pongs ts k !! i = cancel_handle <$> ts !! i.
Proof.
  unfold cancel_pong. destruct (pongs !! k) as [h|]; [|by left].
  destruct (decide (h = i)) as [->|Hne].
  - right. apply list_lookup_alter_eq.
  - left. by apply list_lookup_alter_ne.
Qed.

Lemma cancel_loop_handle pongs ks :
  forall ts i,
    foldl (cancel_pong pongs) ts ks !! i = ts !! i \/
    foldl (cancel_pong pongs) ts ks !! i = cancel_handle <$> ts !! i.
Proof.
  induction ks as [|k ks IH]; intros ts i; cbn [foldl]; [by left|].
  destruct (IH (cancel_pong pongs ts k) i) as [H1|H1];
    destruct (cancel_pong_handle pongs ts k i) as [H3|H3];
    rewrite H1, H3, ?cancel_handle_twice; auto.
Qed.

Lemma cancel_loop_done pongs ks :
  forall ts k h,
    k ∈ ks -> pongs !! k = Some h ->
    foldl (cancel_pong pongs) ts ks !! h = cancel_handle <$> ts !! h.
Proof.
  induction ks as [|k0 ks IH]; intros ts k h Hin Hk; [by apply elem_of_nil in Hin|].
  cbn [foldl]. apply elem_of_cons in Hin as [->|Hin].
  - assert (cancel_pong pongs ts k0 !! h = cancel_handle <$> ts !! h) as Hc.
    { unfold cancel_pong. rewrite Hk. apply list_lookup_alter_eq. }
    destruct (cancel_loop_handle pongs ks (cancel_pong pongs ts k0) h) as [H1|H1];
      rewrite H1, Hc, ?cancel_handle_twice; reflexivity.
  - rewrite (IH _ k h Hin Hk).
    destruct (cancel_pong_handle pongs ts k0 h) as [H3|H3];
      rewrite H3, ?cancel_handle_twice; reflexivity.
Qed.

Lemma key_listed {V} (m : gmap Z V) (k : Z) (v : V) :
  m !! k = Some v -> k ∈ (map_to_list m).*1.
Proof.
  intros H. apply list_elem_of_fmap. exists (k, v). split; [reflexivity|].
  by apply elem_of_map_to_list.
Qed.

(** C8.  From a session state whose transport handle and loop task are
    paired, [disconnect] returns normally; a second [disconnect] right after
    it returns normally too and leaves the world exactly as the first call
    left it.  In that world the transport handle and the loop task are
    cleared, both registries are empty and no next-ping timer is held; the
    handle of every pending pong and of the next-ping timer is cancelled;
    the response of every request that was registered is resolved: with the
    interruption error if it was pending, as it was otherwise. *)
Theorem C8_disconnect_idempotent (w : World) :
  session_wf w ->
  disconnect w = (disconnected w, Ok tt) /\
  disconnect (disconnected w) = (disconnected w, Ok tt) /\
  _mtproto (client (disconnected w)) = None /\
  _mtproto_loop_task (client (disconnected w)) = None /\
  _pending_pongs (client (disconnected w)) = ∅ /\
  _pending_requests (client (disconnected w)) = ∅ /\
  _pending_ping_request (client (disconnected w)) = None /\
  (forall k pr,
     _pending_requests (client w) !! k = Some pr ->
     futures (disconnected w) !! response pr =
       Some (default (FException InterruptedError) (futures w !! response pr))) /\
  (forall k h,
     _pending_pongs (client w) !! k = Some h ->
     timers (disconnected w) !! h = cancel_handle <$> timers w !! h) /\
  (forall h,
     _pending_ping_request (client w) = Some h ->
     timers (disconnected w) !! h = cancel_handle <$> timers w !! h).
Proof.
  intros Hwf.
  assert (disconnect w = (disconnected w, Ok tt)) as H1.
  { rewrite disconnect_eq. unfold session_wf in Hwf.
    destruct (_mtproto (client w)); [|reflexivity].
    destruct (_mtproto_loop_task (client w)); [reflexivity|].
    exfalso. by apply Hwf. }
  split; [exact H1|]. split.
  { rewrite disconnect_eq.
    assert (_mtproto (client (disconnected w)) = None) as -> by reflexivity.
    unfold disconnected at 1.
    cbn [client with_client _mtproto _mtproto_loop_task _pending_pongs
         _pending_requests _pending_ping_request set_mtproto set_mtproto_loop_task].
    rewrite torn_down_fixed.
    - unfold disconnected.
      destruct (_mtproto (client w)), (_mtproto_loop_task (client w)); reflexivity.
    - unfold disconnected.
      destruct (_mtproto (client w)), (_mtproto_loop_task (client w)); reflexivity.
    - unfold disconnected.
      destruct (_mtproto (client w)), (_mtproto_loop_task (client w)); reflexivity.
    - unfold disconnected.
      destruct (_mtproto (client w)), (_mtproto_loop_task (client w)); reflexivity. }
  assert (futures (disconnected w) =
            foldl (interrupt_request (_pending_requests (client w))) (futures w)
              (map_to_list (_pending_requests (client w))).*1) as Hf.
  { unfold disconnected.
    destruct (_mtproto (client w)), (_mtproto_loop_task (client w)); reflexivity. }
  assert (timers (disconnected w) =
            match _pending_ping_request (client w) with
            | Some h =>
                alter cancel_handle h
                  (foldl (cancel_pong (_pending_pongs (client w))) (timers w)
                     (map_to_list (_pending_pongs (client w))).*1)
            | None =>
                foldl (cancel_pong (_pending_pongs (client w))) (timers w)
                  (map_to_list (_pending_pongs (client w))).*1
            end) as Hts.
  { unfold disconnected.
    destruct (_mtproto (client w)), (_mtproto_loop_task (client w)); reflexivity. }
  repeat split;
    try (unfold disconnected;
         destruct (_mtproto (client w)), (_mtproto_loop_task (client w)); reflexivity).
  - intros k pr Hk. rewrite Hf.
    pose proof (interrupt_loop_done _ _ (futures w) k pr (key_listed _ _ _ Hk) Hk)
      as [r Hr].
    destruct (interrupt_loop_slot (_pending_requests (client w))
                (map_to_list (_pending_requests (client w))).*1 (futures w)
                (response pr)) as [H2|[H2 H3]].
    + rewrite H2 in Hr |- *. rewrite Hr. reflexivity.
    + rewrite H3, H2. reflexivity.
  - intros k h Hk. rewrite Hts.
    pose proof (cancel_loop_done _ _ (timers w) k h (key_listed _ _ _ Hk) Hk) as Hc.
    destruct (_pending_ping_request (client w)) as [h'|]; [|exact Hc].
    destruct (decide (h' = h)) as [->|Hne].
    + rewrite list_lookup_alter_eq, Hc. apply cancel_handle_twice.
    + rewrite list_lookup_alter_ne by exact Hne. exact Hc.
  - intros h Hp. rewrite Hts, Hp. rewrite list_lookup_alter_eq.
    destruct (cancel_loop_handle (_pending_pongs (client w))
                (map_to_list (_pending_pongs (client w))).*1 (timers w) h) as [H2|H2];
      rewrite H2, ?cancel_handle_twice; reflexivity.
Qed.

(** ** The inbound dispatcher *)

(** What holds of the handlers and of the acknowledgment holds of the
    dispatcher, by induction on the nesting of containers. *)
Lemma keeps_process_telegram_message I P :
  (forall m, keeps I P (modify_client (_update_last_seqno_from_incoming_message m))) ->
  (forall body, keeps I P (_process_telegram_message_body body)) ->
  (forall msg_id seqno, keeps I P (_acknowledge_telegram_message msg_id seqno)) ->
  forall m, keeps I P (_process_telegram_message m).
Proof.
  intros Hobs Hbody Hack.
  fix IH 1. intros [msg_id seqno body]. cbn [_process_telegram_message].
  apply keeps_bind; [apply Hobs | intros _].
  assert (forall ms : list Message,
            (forall m, In m ms -> keeps I P (_process_telegram_message m)) ->
            keeps I P
              ((fix each (ms : list Message) : M unit :=
                  match ms with
                  | [] => ret tt
                  | m :: ms' => let* _ := _process_telegram_message m in each ms'
                  end) ms)) as Heach.
  { clear IH. induction ms as [|m ms IHms]; intros Hms.
    - apply keeps_ret.
    - apply keeps_bind; [apply Hms; left; reflexivity | intros _].
      apply IHms. intros m' Hin. apply Hms. right. exact Hin. }
  destruct body as [req res|mid pid|bad salt|bad code|ms|packed|tag fields];
    try (apply keeps_bind; [apply Hbody | intros _; apply Hack]).
  - (* a container *)
    apply Heach. clear Heach.
    induction ms as [|m ms IHms]; intros m' Hin; [destruct Hin|].
    destruct Hin as [<-|Hin]; [apply IH | apply IHms, Hin].
  - (* a gzip-wrapped body *)
    destruct packed as [req res|mid pid|bad salt|bad code|ms|packed|tag fields];
      try (apply keeps_bind; [apply Hbody | intros _; apply Hack]).
    apply Heach. clear Heach.
    induction ms as [|m ms IHms]; intros m' Hin; [destruct Hin|].
    destruct Hin as [<-|Hin]; [apply IH | apply IHms, Hin].
Qed.

Lemma logs_nothing {A} (m : M A) :
  (forall l, keeps (fun w => ack_log w = l) (fun _ => True) m) -> logs [] m.
Proof.
  intros Hm w. exists []. destruct (Hm (ack_log w) w eq_refl) as [H _].
  rewrite H, app_nil_r. repeat split; reflexivity.
Qed.

Lemma logs_bind {A B} (ids i1 i2 : list Z) (m : M A) (k : A -> M B) :
  ids = i1 ++ i2 ->
  logs i1 m -> (forall a, logs i2 (k a)) -> logs ids (bind m k).
Proof.
  intros -> Hm Hk w. unfold bind.
  destruct (Hm w) as (d1 & H1 & Hp1 & Hf1).
  destruct (m w) as [w1 [a|e]]; cbn in *.
  - destruct (Hk a w1) as (d2 & H2 & Hp2 & Hf2).
    exists (d1 ++ d2). rewrite (Hf1 a eq_refl) in *.
    split; [rewrite H2, H1, app_assoc; reflexivity|].
    split; [apply prefix_app, Hp2|].
    intros b Hb. rewrite (Hf2 b Hb). reflexivity.
  - exists d1. split; [exact H1|]. split; [|discriminate].
    apply prefix_app_r, Hp1.
Qed.

Lemma body_keeps_ack_log (l : list Z) (body : Structure) :
  keeps (fun w => ack_log w = l) (fun _ => True) (_process_telegram_message_body body).
Proof.
  keeps_go ltac:(try exact I; try assumption).
Qed.

Lemma flush_keeps_ack_log (l : list Z) :
  keeps (fun w => ack_log w = l) (fun _ => True) _flush_msgids_to_ack.
Proof.
  keeps_go ltac:(try exact I; try assumption).
Qed.

Lemma logs_acknowledge (msg_id seqno : Z) :
  logs (if seqno mod 2 =? 1 then [msg_id] else [])
    (_acknowledge_telegram_message msg_id seqno).
Proof.
  unfold _acknowledge_telegram_message.
  destruct (seqno mod 2 =? 1).
  - apply (logs_bind _ [msg_id] []); [reflexivity | | intros _].
    + intros w. exists [msg_id]. repeat split; reflexivity.
    + apply logs_nothing, flush_keeps_ack_log.
  - apply logs_nothing. intros l. apply keeps_ret.
Qed.

Lemma logs_process_telegram_message :
  forall m, logs (ack_eligible_ids m) (_process_telegram_message m).
Proof.
  fix IH 1. intros [msg_id seqno body].
  cbn [_process_telegram_message ack_eligible_ids].
  assert (forall ms : list Message,
            (forall m, In m ms -> logs (ack_eligible_ids m) (_process_telegram_message m)) ->
            logs
              ((fix each (ms : list Message) : list Z :=
                  match ms with
                  | [] => []
                  | m :: ms' => ack_eligible_ids m ++ each ms'
                  end) ms)
              ((fix each (ms : list Message) : M unit :=
                  match ms with
                  | [] => ret tt
                  | m :: ms' => let* _ := _process_telegram_message m in each ms'
                  end) ms)) as Heach.
  { clear IH. induction ms as [|m ms IHms]; intros Hms.
    - apply logs_nothing. intros l. apply keeps_ret.
    - eapply logs_bind; [reflexivity | apply Hms; left; reflexivity | intros _].
      apply IHms. intros m' Hin. apply Hms. right. exact Hin. }
  assert (forall b,
            logs (if seqno mod 2 =? 1 then [msg_id] else [])
              (let* _ := _process_telegram_message_body b in
               _acknowledge_telegram_message msg_id seqno)) as Hleaf.
  { intros b. apply (logs_bind _ [] (if seqno mod 2 =? 1 then [msg_id] else []));
      [reflexivity | | intros _; apply logs_acknowledge].
    apply logs_nothing. intros l. apply body_keeps_ack_log. }
  eapply (logs_bind _ []); [reflexivity | | intros _].
  { apply logs_nothing. intros l. intros w Hw. split; [exact Hw | discriminate]. }
  destruct body as [req res|mid pid|bad salt|bad code|ms|packed|tag fields];
    try apply Hleaf.
  - apply Heach. clear Heach Hleaf.
    induction ms as [|m ms IHms]; intros m' Hin; [destruct Hin|].
    destruct Hin as [<-|Hin]; [apply IH | apply IHms, Hin].
  - destruct packed as [req res|mid pid|bad salt|bad code|ms|packed|tag fields];
      try apply Hleaf.
    apply Heach. clear Heach Hleaf.
    induction ms as [|m ms IHms]; intros m' Hin; [destruct Hin|].
    destruct Hin as [<-|Hin]; [apply IH | apply IHms, Hin].
Qed.

Ltac buffer_logged_fin :=
  try exact I; try assumption; try apply suffix_nil; try (apply suffix_app; assumption).

Lemma body_keeps_buffer_logged (body : Structure) :
  keeps buffer_logged (fun _ => True) (_process_telegram_message_body body).
Proof.
  unfold buffer_logged. keeps_go buffer_logged_fin.
Qed.

Lemma acknowledge_keeps_buffer_logged (msg_id seqno : Z) :
  keeps buffer_logged (fun _ => True) (_acknowledge_telegram_message msg_id seqno).
Proof.
  unfold buffer_logged, _acknowledge_telegram_message.
  keeps_go buffer_logged_fin.
Qed.

Lemma dispatcher_keeps_buffer_logged (m : Message) :
  keeps buffer_logged (fun _ => True) (_process_telegram_message m).
Proof.
  apply keeps_process_telegram_message.
  - intros [msg_id seqno body] w Hw. split; [exact Hw | discriminate].
  - apply body_keeps_buffer_logged.
  - apply acknowledge_keeps_buffer_logged.
Qed.

Lemma ack_eligible_ids_eq (msg_id seqno : Z) (body : Structure) :
  ack_eligible_ids (mkMessage msg_id seqno body) =
    match inner_messages body with
    | Some messages => flat_map ack_eligible_ids messages
    | None => if seqno mod 2 =? 1 then [msg_id] else []
    end.
Proof.
  unfold inner_messages, unwrapped. cbn [ack_eligible_ids].
  destruct body as [req res|mid pid|bad salt|bad code|ms|packed|tag fields];
    try reflexivity.
  destruct packed; reflexivity.
Qed.

Lemma process_leaf_eq (msg_id seqno : Z) (body : Structure) :
  inner_messages body = None ->
  _process_telegram_message (mkMessage msg_id seqno body) =
    (let* _ := modify_client
                 (_update_last_seqno_from_incoming_message (mkMessage msg_id seqno body)) in
     let* _ := _process_telegram_message_body (unwrapped body) in
     _acknowledge_telegram_message msg_id seqno).
Proof.
  unfold inner_messages, unwrapped. cbn [_process_telegram_message].
  destruct body as [req res|mid pid|bad salt|bad code|ms|packed|tag fields];
    try reflexivity; try discriminate.
  destruct packed; try reflexivity; discriminate.
Qed.

(** The loop over the inner messages of a container is [for_each]. *)
Lemma each_inner_message (ms : list Message) (w : World) :
  (fix each (ms : list Message) : M unit :=
     match ms with
     | [] => ret tt
     | m :: ms' => let* _ := _process_telegram_message m in each ms'
     end) ms w = for_each ms _process_telegram_message w.
Proof.
  revert w. induction ms as [|m ms IH]; intros w; [reflexivity|].
  cbn [for_each]. unfold bind.
  destruct (_process_telegram_message m w) as [w' [[]|e]]; [apply IH | reflexivity].
Qed.

Lemma process_container_eq (msg_id seqno : Z) (body : Structure)
  (messages : list Message) (w : World) :
  inner_messages body = Some messages ->
  _process_telegram_message (mkMessage msg_id seqno body) w =
    for_each messages _process_telegram_message
      (with_client
         (_update_last_seqno_from_incoming_message (mkMessage msg_id seqno body)) w).
Proof.
  unfold inner_messages, unwrapped. cbn [_process_telegram_message].
  unfold bind at 1, modify_client.
  destruct body as [req res|mid pid|bad salt|bad code|ms|packed|tag fields];
    try discriminate.
  - intros [= <-]. apply each_inner_message.
  - destruct packed; try discriminate. intros [= <-]. apply each_inner_message.
Qed.

(** A loop stops at the first element whose step raises. *)
Lemma for_each_stops {A} (f : A -> M unit) (before : list A) (a : A)
  (rest : list A) (w w2 w3 : World) (e : Exn) :
  for_each before f w = (w2, Ok tt) ->
  f a w2 = (w3, Raise e) ->
  for_each (before ++ a :: rest) f w = (w3, Raise e).
Proof.
  revert w. induction before as [|b before IH]; intros w Hb Ha.
  - injection Hb as <-. cbn [app for_each]. unfold bind. rewrite Ha. reflexivity.
  - cbn [app for_each] in *. unfold bind in *.
    destruct (f b w) as [w1 [[]|e1]]; [apply IH; assumption | discriminate].
Qed.

(** C6 (amended).  The ids the dispatcher appends to the ack buffer while it
    processes a message are, in order, ids of non-container messages with an
    odd seqno: the message itself when its body is not a container, the
    inner messages of a container, recursively, and never the container.
    Nothing else is ever appended, whether the dispatch returns or raises;
    when the dispatch returns, every such id has been appended, once.  The
    buffer itself stays the unflushed tail of what was appended.  When a
    handler or a flush raises, the dispatch stops there.  For a message
    that is not a container, the handler runs first, in the world in which
    the seqno of the message has been noted: when it raises, the dispatch
    ends in the world the handler left, with the handler's exception, and
    nothing was appended; when it returns, the dispatch is the
    acknowledgment (the append, then the flush) run in the world the
    handler left.  For a container, the inner messages are dispatched in
    order: when the ones before an inner message return and that one
    raises, the dispatch ends in the world that inner dispatch left, with
    its exception, whatever messages follow it in the container. *)
Theorem C6_dispatcher_acknowledges (m : Message) (w : World) :
  (forall msg_id seqno body,
     ack_eligible_ids (mkMessage msg_id seqno body) =
       match inner_messages body with
       | Some messages => flat_map ack_eligible_ids messages
       | None => if seqno mod 2 =? 1 then [msg_id] else []
       end) /\
  (exists appended,
     ack_log (_process_telegram_message m w).1 = ack_log w ++ appended /\
     appended `prefix_of` ack_eligible_ids m /\
     ((_process_telegram_message m w).2 = Ok tt ->
      appended = ack_eligible_ids m)) /\
  (buffer_logged w -> buffer_logged (_process_telegram_message m w).1) /\
  (forall msg_id seqno body,
     m = mkMessage msg_id seqno body ->
     inner_messages body = None ->
     (forall w2 e,
        _process_telegram_message_body (unwrapped body)
          (with_client (_update_last_seqno_from_incoming_message m) w) =
          (w2, Raise e) ->
        _process_telegram_message m w = (w2, Raise e) /\
        ack_log w2 = ack_log w) /\
     (forall w2,
        _process_telegram_message_body (unwrapped body)
          (with_client (_update_last_seqno_from_incoming_message m) w) =
          (w2, Ok tt) ->
        _process_telegram_message m w =
          _acknowledge_telegram_message msg_id seqno w2)) /\
  (forall msg_id seqno body before inner rest w2 w3 e,
     m = mkMessage msg_id seqno body ->
     inner_messages body = Some (before ++ inner :: rest) ->
     for_each before _process_telegram_message
       (with_client (_update_last_seqno_from_incoming_message m) w) =
       (w2, Ok tt) ->
     _process_telegram_message inner w2 = (w3, Raise e) ->
     _process_telegram_message m w = (w3, Raise e)).
Proof.
  split; [apply ack_eligible_ids_eq|]. split; [|split; [|split]].
  - destruct (logs_process_telegram_message m w) as (d & H1 & H2 & H3).
    exists d. split; [exact H1|]. split; [exact H2|]. apply H3.
  - intros Hw. apply (dispatcher_keeps_buffer_logged m w Hw).
  - intros msg_id seqno body -> Hleaf. rewrite (process_leaf_eq _ _ _ Hleaf).
    split.
    + intros w2 e Hraise. unfold bind at 1, modify_client.
      unfold bind at 1. rewrite Hraise. split; [reflexivity|].
      pose proof (body_keeps_ack_log (ack_log w) (unwrapped body)
                    (with_client
                       (_update_last_seqno_from_incoming_message
                          (mkMessage msg_id seqno body)) w) eq_refl) as [Hl _].
      rewrite Hraise in Hl. exact Hl.
    + intros w2 Hret. unfold bind at 1, modify_client.
      unfold bind at 1. rewrite Hret. reflexivity.
  - intros msg_id seqno body before inner rest w2 w3 e -> Hin Hbefore Hraise.
    rewrite (process_container_eq _ _ _ _ _ Hin).
    apply (for_each_stops _ _ _ _ _ _ _ _ Hbefore Hraise).
Qed.

(** ** Acknowledgment and the flush gate *)

Lemma flush_returns_post (w w' : World) :
  _flush_msgids_to_ack w = (w', Ok tt) ->
  _stable_seqno (client w') = true ->
  _msgids_to_ack (client w') = [].
Proof.
  intros Hrun Hst.
  destruct (_msgids_to_ack (client w)) as [|i ids] eqn:Hbuf.
  - rewrite flush_gate_closed in Hrun by (left; exact Hbuf).
    injection Hrun as <-. exact Hbuf.
  - destruct (_stable_seqno (client w)) eqn:Hs.
    + destruct (_mtproto (client w)) as [t|] eqn:Hm.
      * rewrite (flush_gate_open w t) in Hrun; [|congruence|exact Hs|exact Hm].
        destruct (write_outcome (writes w)); [|discriminate].
        injection Hrun as <-. reflexivity.
      * exfalso. revert Hrun.
        unfold _flush_msgids_to_ack, bind, time_now, modify_client, get_client,
          on_client, mtproto_write, ret. cbn.
        rewrite Hbuf, Hs. cbn. rewrite Hm. discriminate.
    + rewrite flush_gate_closed in Hrun by (right; exact Hs).
      injection Hrun as <-. cbn in Hst. congruence.
Qed.

(** C10 (amended).  A non-container message with an odd seqno is enqueued
    and then flushed at once by [_flush_msgids_to_ack] itself, not by the
    threshold check: with [_stable_seqno] true and a transport, the buffer
    with the new id goes out in one [msgs_ack] frame whatever its length and
    whatever the clock reads, and is cleared when the write completes.
    Hence, after every dispatch of such a message that returns, the buffer
    is empty if [_stable_seqno] is true, and it can hold 32 ids or more only
    if [_stable_seqno] is false. *)
Theorem C10_flush_after_enqueue (msg_id seqno : Z) (body : Structure) (w : World) :
  seqno mod 2 = 1 ->
  (forall t,
     _stable_seqno (client w) = true ->
     _mtproto (client w) = Some t ->
     _msgids_to_ack (client (enqueued msg_id w)) = _msgids_to_ack (client w) ++ [msg_id] /\
     _acknowledge_telegram_message msg_id seqno w =
       match write_outcome (writes w) with
       | WriteDone => (after_flush_write (enqueued msg_id w) t true, Ok tt)
       | WriteFailed e =>
           (after_flush_write (enqueued msg_id w) t false, Raise (WriteRaised e))
       end /\
     _msgids_to_ack (client (after_flush_write (enqueued msg_id w) t true)) = []) /\
  (forall w',
     inner_messages body = None ->
     _process_telegram_message (mkMessage msg_id seqno body) w = (w', Ok tt) ->
     (_stable_seqno (client w') = true -> _msgids_to_ack (client w') = []) /\
     ((32 <= length (_msgids_to_ack (client w')))%nat ->
      _stable_seqno (client w') = false)).
Proof.
  intros Hodd. apply Z.eqb_eq in Hodd. split.
  - intros t Hst Hm. split; [reflexivity|]. split; [|reflexivity].
    unfold _acknowledge_telegram_message. rewrite Hodd.
    unfold bind at 1. unfold enqueue_ack at 1.
    rewrite (flush_gate_open _ t); [reflexivity | | exact Hst | exact Hm].
    cbn. intros H. by apply app_eq_nil in H as [_ ?].
  - intros w' Hleaf Hrun.
    assert (_stable_seqno (client w') = true -> _msgids_to_ack (client w') = [])
      as Hempty.
    { rewrite (process_leaf_eq _ _ _ Hleaf) in Hrun.
      apply bind_ok_inv in Hrun as (_ & w1 & _ & Hrun).
      apply bind_ok_inv in Hrun as (_ & w2 & _ & Hrun).
      unfold _acknowledge_telegram_message in Hrun. rewrite Hodd in Hrun.
      apply bind_ok_inv in Hrun as (_ & w3 & _ & Hrun).
      apply (flush_returns_post _ _ Hrun). }
    split; [exact Hempty|].
    intros Hlen. destruct (_stable_seqno (client w')); [|reflexivity].
    rewrite Hempty in Hlen by reflexivity. cbn in Hlen. lia.
Qed.

(** ** Pairing of the transport handle and the loop task *)

Ltac session_wf_fin :=
  try exact I; try assumption; try (intros _; discriminate);
  try (intros H; exfalso; apply H; reflexivity);
  try match goal with
      | H : _ -> ?G |- _ -> ?G =>
          intros _; apply H; first [discriminate | congruence]
      end;
  try (intros H'; congruence).

Lemma rpc_call_keeps_session_wf (message : Dict) :
  keeps session_wf (fun _ => True) (rpc_call message).
Proof.
  unfold session_wf. keeps_go session_wf_fin.
Qed.

Lemma disconnect_keeps_session_wf :
  keeps session_wf (fun _ => True) disconnect.
Proof.
  intros w Hw. split; [|intros; exact I].
  rewrite disconnect_eq. unfold session_wf in *.
  destruct (_mtproto (client w)) as [t|].
  - destruct (_mtproto_loop_task (client w)) as [task|].
    + cbn. intros H. exfalso. apply H. reflexivity.
    + exfalso. apply Hw; [discriminate | reflexivity].
  - cbn. intros H. exfalso. apply H. reflexivity.
Qed.

Lemma rpc_resend_keeps_session_wf (pr : _PendingRequest) (no_response : bool) :
  keeps session_wf (fun _ => True) (_rpc_call pr no_response).
Proof.
  unfold session_wf. keeps_go session_wf_fin.
Qed.

Lemma bad_server_salt_keeps_session_wf (bad_msg_id new_server_salt : Z) :
  keeps session_wf (fun _ => True)
    (_process_bad_server_salt bad_msg_id new_server_salt).
Proof.
  intros w Hw. split; [|intros; exact I].
  destruct (_mtproto (client w)) as [t|] eqn:Hm.
  - rewrite (process_bad_server_salt_eq _ _ _ t Hm).
    assert (session_wf (salt_installed new_server_salt t w)) as Hwf.
    { unfold session_wf, salt_installed in *. cbn. intros _.
      destruct (bool_decide _); cbn; apply Hw; rewrite Hm; discriminate. }
    destruct (_pending_requests (client w) !! bad_msg_id) as [pr|]; [|exact Hwf].
    rewrite bind_ret_world.
    apply (rpc_resend_keeps_session_wf pr true). exact Hwf.
  - unfold _process_bad_server_salt, bind, get_client. rewrite Hm. exact Hw.
Qed.

Lemma body_keeps_session_wf (body : Structure) :
  keeps session_wf (fun _ => True) (_process_telegram_message_body body).
Proof.
  destruct body as [req res|mid pid|bad salt|bad code|ms|packed|tag fields];
    cbn [_process_telegram_message_body];
    try apply bad_server_salt_keeps_session_wf;
    try apply keeps_ret.
  - unfold session_wf. keeps_go session_wf_fin.
  - unfold session_wf. keeps_go session_wf_fin.
  - apply keeps_bind; [intros w Hw; split; [exact Hw | discriminate] | intros c].
    destruct ((code =? 32) && negb (_stable_seqno c)); [|apply keeps_ret].
    unfold _process_bad_msg_notification_msg_seqno_too_low.
    apply keeps_bind; [intros w Hw; split; [exact Hw | discriminate] | intros _].
    apply keeps_bind; [intros w Hw; split; [exact Hw | discriminate] | intros _].
    apply keeps_bind; [intros w Hw; split; [exact Hw | discriminate] | intros c'].
    destruct (_pending_requests c' !! bad) as [pr|]; [|apply keeps_ret].
    apply keeps_bind; [intros w Hw; split; [exact Hw | discriminate] | intros _].
    apply keeps_bind; [apply rpc_resend_keeps_session_wf | intros _; apply keeps_ret].
Qed.

Lemma timer_callbacks_keep_session_wf (msg_id : Z) :
  keeps session_wf (fun _ => True) _create_new_ping_request /\
  keeps session_wf (fun _ => True) (_delete_pending_request msg_id true).
Proof.
  split; unfold session_wf; keeps_go session_wf_fin.
Qed.

Lemma loop_turn_keeps_session_wf (m : Message) :
  keeps session_wf (fun _ => True) (_mtproto_loop_turn m).
Proof.
  unfold _mtproto_loop_turn. apply (keeps_swallow _ _ (fun _ => True)).
  apply keeps_bind; [|intros _].
  - apply keeps_process_telegram_message.
    + intros [msg_id seqno body] w Hw. split; [exact Hw | discriminate].
    + apply body_keeps_session_wf.
    + intros msg_id seqno. unfold session_wf, _acknowledge_telegram_message.
      keeps_go session_wf_fin.
  - unfold session_wf. keeps_go session_wf_fin.
Qed.

(** ** Resolution of response futures *)

(** Deleting a pending request, which is also what the 600-second expiry
    runs, checks [done()] first and never raises. *)
Lemma delete_pending_request_returns (msg_id : Z) (remove : bool) (w : World) :
  (_delete_pending_request msg_id remove w).2 = Ok tt.
Proof.
  unfold _delete_pending_request, bind, get_client, future_done, set_exception,
    resolve, modify_client, ret. cbn.
  destruct (_pending_requests (client w) !! msg_id) as [pr|]; [|reflexivity]. cbn.
  destruct (futures w !! response pr) as [r|] eqn:E; cbn.
  - destruct remove; reflexivity.
  - rewrite E. destruct remove; reflexivity.
Qed.

(** * Further properties of the client *)

(** ** Dropping a registration *)

(** X1.  [_delete_pending_request] never raises.  On an id that is not
    registered it changes nothing.  On a registered id it resolves the
    response future with the interruption error when that future is
    pending and leaves a future that is done as it is; the registry loses
    the id when [remove] is set and is untouched otherwise.  Calling it
    again right away changes nothing more. *)
Theorem X1_delete_pending_request (msg_id : Z) (remove : bool) (w : World) :
  (_delete_pending_request msg_id remove w).2 = Ok tt /\
  (_pending_requests (client w) !! msg_id = None ->
   (_delete_pending_request msg_id remove w).1 = w) /\
  (forall pr,
     _pending_requests (client w) !! msg_id = Some pr ->
     futures (_delete_pending_request msg_id remove w).1 =
       match futures w !! response pr with
       | Some _ => futures w
       | None => <[response pr := FException InterruptedError]> (futures w)
       end /\
     _pending_requests (client (_delete_pending_request msg_id remove w).1) =
       (if remove then delete msg_id (_pending_requests (client w))
        else _pending_requests (client w))) /\
  (_delete_pending_request msg_id remove
     (_delete_pending_request msg_id remove w).1).1 =
    (_delete_pending_request msg_id remove w).1.
Proof.
  destruct w as [c fs nf ts es tk dr wr al].
  destruct c as [sq mt ids lf ls st inc task reqs pongs pp].
  unfold _delete_pending_request, bind, get_client, future_done, set_exception,
    resolve, modify_client, ret. cbn.
  destruct (reqs !! msg_id) as [pr|] eqn:Hreq; cbn.
  - destruct (fs !! response pr) as [r|] eqn:Hf; cbn; rewrite ?Hf; cbn.
    + destruct remove; cbn; rewrite ?lookup_delete_eq, ?Hreq; cbn; rewrite ?Hf; cbn;
        (split; [reflexivity|]); (split; [discriminate|]);
        (split; [intros pr' [= <-]; rewrite Hf; split; reflexivity | reflexivity]).
    + destruct remove; cbn; rewrite ?lookup_delete_eq, ?Hreq; cbn;
        rewrite ?lookup_insert_eq; cbn;
        (split; [reflexivity|]); (split; [discriminate|]);
        (split; [intros pr' [= <-]; rewrite Hf; split; reflexivity | reflexivity]).
  - rewrite ?Hreq. repeat split; try reflexivity; try discriminate.
Qed.

(** X2.  [_delete_pending_pong] never raises.  On a ping id that is not
    registered it changes nothing.  On a registered one it cancels the
    timer handle held for it and no other timer; the registry loses the id
    when [remove] is set and is untouched otherwise.  Calling it again
    right away changes nothing more. *)
Theorem X2_delete_pending_pong (ping_id : Z) (remove : bool) (w : World) :
  (_delete_pending_pong ping_id remove w).2 = Ok tt /\
  (_pending_pongs (client w) !! ping_id = None ->
   (_delete_pending_pong ping_id remove w).1 = w) /\
  (forall h,
     _pending_pongs (client w) !! ping_id = Some h ->
     timers (_delete_pending_pong ping_id remove w).1 !! h =
       cancel_handle <$> timers w !! h /\
     (forall i, i <> h ->
        timers (_delete_pending_pong ping_id remove w).1 !! i = timers w !! i) /\
     _pending_pongs (client (_delete_pending_pong ping_id remove w).1) =
       (if remove then delete ping_id (_pending_pongs (client w))
        else _pending_pongs (client w))) /\
  (_delete_pending_pong ping_id remove
     (_delete_pending_pong ping_id remove w).1).1 =
    (_delete_pending_pong ping_id remove w).1.
Proof.
  destruct w as [c fs nf ts es tk dr wr al].
  destruct c as [sq mt ids lf ls st inc task reqs pongs pp].
  unfold _delete_pending_pong, bind, get_client, timer_cancel, modify_client, ret.
  cbn.
  destruct (pongs !! ping_id) as [h|] eqn:Hp; cbn.
  - destruct remove; cbn; rewrite ?lookup_delete_eq, ?Hp; cbn.
    + split; [reflexivity|]. split; [discriminate|]. split; [|reflexivity].
      intros h' [= <-]. split; [apply list_lookup_alter_eq|].
      split; [|reflexivity]. intros i Hi. by apply list_lookup_alter_ne.
    + split; [reflexivity|]. split; [discriminate|]. split.
      * intros h' [= <-]. split; [apply list_lookup_alter_eq|].
        split; [|reflexivity]. intros i Hi. by apply list_lookup_alter_ne.
      * assert (alter cancel_handle h (alter cancel_handle h ts) =
                alter cancel_handle h ts) as ->; [|reflexivity].
        apply list_eq. intros i.
        destruct (decide (i = h)) as [->|Hne].
        -- rewrite !list_lookup_alter_eq. apply cancel_handle_twice.
        -- by rewrite !list_lookup_alter_ne.
  - rewrite ?Hp. repeat split; try reflexivity; try discriminate.
Qed.

(** ** A call on a connected session *)

Lemma rpc_call_send_eq (pr : _PendingRequest) (t : MTProto) (v : Value) (w : World) :
  _mtproto (client w) = Some t ->
  _mtproto_loop_task (client w) = Some TaskRunning ->
  gate_closed w ->
  request pr !! "_cons" = Some v ->
  _rpc_call pr false w =
    match write_outcome (writes w) with
    | WriteDone =>
        wait_for_response (response pr)
          (with_client bump_seqno_increment (sent pr t w))
    | WriteFailed e =>
        if caught_in_rpc_call (WriteRaised e)
        then
          wait_for_response (response pr)
            (with_client bump_seqno_increment
               (_delete_pending_request (last_msg_id t + 1) true (sent pr t w)).1)
        else (sent pr t w, Raise (WriteRaised e))
    end.
Proof.
  intros Hm Ht Hg Hc.
  destruct w as [c fs nf ts es tk dr wr al].
  destruct c as [sq mt ids lf ls st inc task reqs pongs pp].
  cbn in *. subst.
  assert ((match ids with [] => true | _ => false end || negb st) = true) as Hgate.
  { destruct Hg as [Hg|Hg]; cbn in Hg; subst; [reflexivity|].
    destruct ids; reflexivity. }
  unfold _rpc_call, ensure_mtproto_loop, _flush_msgids_to_ack, sent, bind,
    get_client, modify_client, on_client, time_now, mtproto_write,
    try_except, wait_for_write, ret, raise. cbn.
  rewrite Hgate. cbn. rewrite Hc. cbn.
  destruct (write_outcome wr) as [|e]; cbn; [reflexivity|].
  destruct e; cbn; try reflexivity.
  all: unfold _delete_pending_request, bind, get_client, future_done,
         set_exception, resolve, modify_client, ret; cbn;
       rewrite lookup_insert_eq; cbn;
       destruct (fs !! response pr) eqn:E; cbn; rewrite ?E; reflexivity.
Qed.


(** X4.  A call and its answer.  After [rpc_call] parked the caller (the
    session connected, the gate closed, the write completed), an
    [rpc_result] whose [req_msg_id] is the id the request was sent under is
    handled without an exception: it resolves the caller's future with
    [result.get_dict()], taken from inside one gzip layer when there is
    one, so that the caller's [wait_for] returns that dictionary; the
    registration is dropped and [_stable_seqno] is true.  A second
    [rpc_result] for the same id finds nothing and changes nothing. *)
Theorem X4_call_then_result (message : Dict) (v : Value) (t : MTProto)
  (result result' : Structure) (w : World) :
  _mtproto (client w) = Some t ->
  _mtproto_loop_task (client w) = Some TaskRunning ->
  gate_closed w ->
  message !! "_cons" = Some v ->
  futures w !! next_future w = None ->
  write_outcome (writes w) = WriteDone ->
  let slot := next_future w in
  let id := last_msg_id t + 1 in
  let w1 := (rpc_call message w).1 in
  let w2 := (_process_telegram_message_body (rpc_result id result) w1).1 in
  (_process_telegram_message_body (rpc_result id result) w1).2 = Ok tt /\
  futures w2 = <[slot := FResult (get_dict (unwrapped result))]> (futures w) /\
  wait_for_response slot w2 =
    (w2, Ok (Returned (Some (get_dict (unwrapped result))))) /\
  _pending_requests (client w2) = delete id (_pending_requests (client w)) /\
  _stable_seqno (client w2) = true /\
  _process_telegram_message_body (rpc_result id result') w2 = (w2, Ok tt).
Proof.
  intros Hm Ht Hg Hc Hfresh Hw slot id w1 w2.
  assert (w1 = (_rpc_call (mkPendingRequest slot message) false
                  (set_next_future (S slot) w)).1) as H1.
  { subst w1. unfold rpc_call. rewrite Hc. reflexivity. }
  rewrite (rpc_call_send_eq _ t v) in H1 by assumption.
  cbn [writes set_next_future] in H1. rewrite Hw in H1.
  subst w2. rewrite H1. clear H1 w1.
  destruct w as [c fs nf ts es tk dr wr al].
  destruct c as [sq mt ids lf ls st inc task reqs pongs pp].
  cbn in Hm, Ht, Hfresh |- *. subst mt task.
  unfold wait_for_response, sent, _process_rpc_result, bind, get_client,
    set_result, resolve, modify_client, ret. cbn.
  rewrite Hfresh. cbn. rewrite lookup_insert_eq. cbn. rewrite Hfresh. cbn.
  rewrite !lookup_insert_eq, !lookup_delete_eq, delete_insert_eq.
  repeat split.
Qed.

(** ** Connecting on first use *)

Lemma create_new_ping_request_eq (t : MTProto) (w : World) :
  _mtproto (client w) = Some t ->
  _create_new_ping_request w =
    (pinged t w,
     match write_outcome (writes w) with
     | WriteDone => Ok tt
     | WriteFailed e => Raise (WriteRaised e)
     end).
Proof.
  intros Hm.
  destruct w as [c fs nf ts es tk dr wr al].
  destruct c as [sq mt ids lf ls st inc task reqs pongs pp].
  cbn in *. subst.
  unfold _create_new_ping_request, pinged, ping_request, bind, random_ping_id,
    on_client, create_future, call_later, modify_client, mtproto_write,
    wait_for_write, ret, raise. cbn.
  destruct (write_outcome wr); reflexivity.
Qed.

Lemma start_mtproto_loop_eq (w : World) :
  _mtproto (client w) = None ->
  _start_mtproto_loop w = _create_new_ping_request (restarted (torn_down w)).
Proof.
  intros Hm. unfold _start_mtproto_loop. unfold bind at 1.
  rewrite delete_all_pending_data_eq.
  unfold bind at 1. unfold bind at 1. unfold get_client at 1.
  assert (_mtproto (client (torn_down w)) = None) as -> by exact Hm.
  reflexivity.
Qed.

Lemma rpc_call_after_ensure (pr : _PendingRequest) (no_response : bool)
  (w w1 : World) :
  ensure_mtproto_loop w = (w1, Ok tt) ->
  ensure_mtproto_loop w1 = (w1, Ok tt) ->
  _rpc_call pr no_response w = _rpc_call pr no_response w1.
Proof.
  intros H H1. unfold _rpc_call. unfold bind at 1. rewrite H.
  symmetry. unfold bind at 1. rewrite H1. reflexivity.
Qed.

Lemma rpc_call_ensure_raises (pr : _PendingRequest) (no_response : bool)
  (w w1 : World) (e : Exn) :
  ensure_mtproto_loop w = (w1, Raise e) ->
  _rpc_call pr no_response w = (w1, Raise e).
Proof.
  intros H. unfold _rpc_call. unfold bind at 1. rewrite H. reflexivity.
Qed.

Lemma ensure_running_eq (t : MTProto) (w : World) :
  _mtproto (client w) = Some t ->
  _mtproto_loop_task (client w) = Some TaskRunning ->
  ensure_mtproto_loop w = (w, Ok tt).
Proof.
  intros Hm Ht. unfold ensure_mtproto_loop, bind, get_client.
  rewrite Hm, Ht. reflexivity.
Qed.

Lemma ensure_disconnected_eq (w : World) :
  _mtproto (client w) = None ->
  _pending_requests (client w) = ∅ ->
  _pending_pongs (client w) = ∅ ->
  _pending_ping_request (client w) = None ->
  ensure_mtproto_loop w =
    (pinged new_MTProto (restarted w),
     match write_outcome (writes w) with
     | WriteDone => Ok tt
     | WriteFailed e => Raise (WriteRaised e)
     end).
Proof.
  intros Hm Hr Hp Hpp.
  assert (ensure_mtproto_loop w = _start_mtproto_loop w) as ->.
  { unfold ensure_mtproto_loop, bind, get_client. rewrite Hm. reflexivity. }
  rewrite (start_mtproto_loop_eq _ Hm), (torn_down_fixed w Hp Hr Hpp).
  rewrite (create_new_ping_request_eq new_MTProto (restarted w)) by reflexivity.
  reflexivity.
Qed.

Lemma first_call_eq (message : Dict) (v : Value) (w : World) :
  _mtproto (client w) = None ->
  _pending_requests (client w) = ∅ ->
  _pending_pongs (client w) = ∅ ->
  _pending_ping_request (client w) = None ->
  gate_closed w ->
  message !! "_cons" = Some v ->
  let w0 := set_next_future (S (next_future w)) w in
  let pr := mkPendingRequest (next_future w) message in
  let w1 := pinged new_MTProto (restarted w0) in
  rpc_call message w =
    match write_outcome (writes w) with
    | WriteDone => _rpc_call pr false w1
    | WriteFailed e => (w1, Raise (WriteRaised e))
    end.
Proof.
  intros Hm Hr Hp Hpp Hg Hc w0 pr w1.
  assert (rpc_call message w = _rpc_call pr false w0) as ->.
  { unfold rpc_call. rewrite Hc. reflexivity. }
  pose proof (ensure_disconnected_eq w0 Hm Hr Hp Hpp) as Hens.
  change (writes w0) with (writes w) in Hens.
  destruct (write_outcome (writes w)) as [|e].
  - apply (rpc_call_after_ensure _ _ _ _ Hens).
    apply (ensure_running_eq
             (write ((_last_seqno (client w) + 1) / 2 * 2 + 1)
                (ping_request (randrange (draws w))) new_MTProto).2);
      reflexivity.
  - apply (rpc_call_ensure_raises _ _ _ _ _ Hens).
Qed.

Lemma next_odd_twice (l : Z) :
  ((l + 1) / 2 * 2 + 1 + 1) / 2 * 2 + 1 = (l + 1) / 2 * 2 + 1 + 2.
Proof. Z.to_euclidean_division_equations. lia. Qed.


(** ** A ping and its pong *)

Lemma alter_last {A} (f : A -> A) (l : list A) (x : A) :
  alter f (length l) (l ++ [x]) = l ++ [f x].
Proof. induction l as [|a l IH]; cbn; [reflexivity | by rewrite IH]. Qed.

(** X6.  A ping and its pong.  After [_create_new_ping_request] sent a ping
    over the transport of a connected session, a [pong] that names the
    ping's message id and ping id is handled without an exception: the
    10-second disconnect timer armed for the ping is cancelled and its
    entry leaves [_pending_pongs], the ping's future is resolved with the
    empty dictionary, and a new 10-second timer that will send the next
    ping is armed and kept in [_pending_ping_request].  The ping stays
    registered in [_pending_requests]. *)
Theorem X6_ping_then_pong (t : MTProto) (w : World) :
  _mtproto (client w) = Some t ->
  futures w !! next_future w = None ->
  let ping_id := randrange (draws w) in
  let id := last_msg_id t + 1 in
  let w1 := (_create_new_ping_request w).1 in
  let r := _process_telegram_message_body (pong id ping_id) w1 in
  r.2 = Ok tt /\
  futures r.1 = <[next_future w := FResult ∅]> (futures w) /\
  timers r.1 =
    timers w ++ [mkTimer 10 cb_disconnect true;
                 mkTimer 10 cb_create_new_ping_request_sync false] /\
  _pending_ping_request (client r.1) = Some (S (length (timers w))) /\
  _pending_pongs (client r.1) = delete ping_id (_pending_pongs (client w)) /\
  _pending_requests (client r.1) =
    <[id := mkPendingRequest (next_future w) (ping_request ping_id)]>
      (_pending_requests (client w)).
Proof.
  intros Hm Hfresh ping_id id w1 r.
  subst r w1. rewrite (create_new_ping_request_eq t w Hm).
  destruct w as [c fs nf ts es tk dr wr al].
  destruct c as [sq mt ids lf ls st inc task reqs pongs pp].
  cbn in *. subst mt.
  unfold _process_pong, _delete_pending_pong, bind, get_client, timer_cancel,
    modify_client, set_result, resolve, call_later, ret. cbn.
  rewrite lookup_insert_eq. cbn. rewrite lookup_insert_eq. cbn.
  rewrite Hfresh. cbn.
  rewrite alter_last, delete_insert_eq, length_app, <- app_assoc. cbn.
  rewrite Nat.add_1_r. repeat split.
Qed.

(** ** What every reachable session satisfies *)

Lemma keeps_and {A} (I1 I2 : World -> Prop) P (m : M A) :
  keeps I1 P m -> keeps I2 (fun _ => True) m ->
  keeps (fun w => I1 w /\ I2 w) P m.
Proof.
  intros H1 H2 w [Hw1 Hw2]. destruct (H1 w Hw1) as [Ha Hb].
  destruct (H2 w Hw2) as [Hc _]. auto.
Qed.

Lemma next_odd_above (L l : Z) : L <= l -> L <= (l + 1) / 2 * 2 + 1.
Proof. intros H. Z.to_euclidean_division_equations. lia. Qed.

Lemma next_even_above (L l : Z) : L <= l -> L <= (l / 2 + 1) * 2.
Proof. intros H. Z.to_euclidean_division_equations. lia. Qed.

Lemma doubled_increment_positive (inc : Z) :
  1 <= inc -> 1 <= Z.min (2 ^ 31 - 1) (Z.shiftl inc 1).
Proof. intros H. rewrite Z.shiftl_mul_pow2 by lia. lia. Qed.

Ltac counters_fin :=
  try exact I;
  repeat match goal with H : _ /\ _ |- _ => destruct H end;
  try (split;
       first [ assumption
             | apply next_odd_above; assumption
             | apply next_even_above; assumption
             | apply doubled_increment_positive; assumption
             | lia ]).

Ltac seq_no_fin := try exact I; try assumption.

Lemma keeps_session_inv {A} (L : Z) (m : M A) :
  keeps session_wf (fun _ => True) m ->
  keeps (fun w => _seq_no (client w) = -1) (fun _ => True) m ->
  keeps (counters_above L) (fun _ => True) m ->
  keeps (session_inv L) (fun _ => True) m.
Proof.
  intros H1 H2 H3. apply keeps_and; [apply keeps_and|]; assumption.
Qed.

Lemma rpc_call_keeps_session_inv (L : Z) (message : Dict) :
  keeps (session_inv L) (fun _ => True) (rpc_call message).
Proof.
  apply keeps_session_inv.
  - apply rpc_call_keeps_session_wf.
  - keeps_go seq_no_fin.
  - unfold counters_above. keeps_go counters_fin.
Qed.

Lemma disconnect_keeps_session_inv (L : Z) :
  keeps (session_inv L) (fun _ => True) disconnect.
Proof.
  apply keeps_session_inv.
  - apply disconnect_keeps_session_wf.
  - keeps_go seq_no_fin.
  - unfold counters_above. keeps_go counters_fin.
Qed.

Lemma callbacks_keep_session_inv (L : Z) (cb : Callback) :
  keeps (session_inv L) (fun _ => True) (run_callback cb).
Proof.
  destruct cb as [|msg_id|]; cbn [run_callback].
  - apply disconnect_keeps_session_inv.
  - apply keeps_session_inv.
    + apply (timer_callbacks_keep_session_wf msg_id).
    + keeps_go seq_no_fin.
    + unfold counters_above. keeps_go counters_fin.
  - apply (keeps_swallow _ _ (fun _ => True)). apply keeps_session_inv.
    + apply (timer_callbacks_keep_session_wf 0).
    + keeps_go seq_no_fin.
    + unfold counters_above. keeps_go counters_fin.
Qed.

Lemma dispatch_keeps_seq_no (m : Message) :
  keeps (fun w => _seq_no (client w) = -1) (fun _ => True)
    (_process_telegram_message m).
Proof.
  revert m. apply keeps_process_telegram_message.
  - intros [msg_id seqno body] w Hw. split; [exact Hw | discriminate].
  - intros body. keeps_go seq_no_fin.
  - intros msg_id seqno. unfold _acknowledge_telegram_message.
    keeps_go seq_no_fin.
Qed.

Lemma body_keeps_counters (L : Z) (body : Structure) :
  keeps (counters_above L) (fun _ => True) (_process_telegram_message_body body).
Proof.
  unfold counters_above. keeps_go counters_fin.
Qed.

Lemma acknowledge_keeps_counters (L : Z) (msg_id seqno : Z) :
  keeps (counters_above L) (fun _ => True)
    (_acknowledge_telegram_message msg_id seqno).
Proof.
  unfold counters_above, _acknowledge_telegram_message.
  keeps_go counters_fin.
Qed.

Lemma dispatch_keeps_counters (L : Z) (m : Message) :
  keeps (counters_above L) (fun _ => True) (_process_telegram_message m).
Proof.
  revert m. apply keeps_process_telegram_message.
  - intros [msg_id seqno body] w [H1 H2].
    split; [|discriminate]. split; [exact H1 | cbn; lia].
  - apply body_keeps_counters.
  - apply acknowledge_keeps_counters.
Qed.

Lemma keeps_each I P (ms : list Message) :
  (forall m, keeps I P (_process_telegram_message m)) ->
  keeps I P
    ((fix each (ms : list Message) : M unit :=
        match ms with
        | [] => ret tt
        | m :: ms' => let* _ := _process_telegram_message m in each ms'
        end) ms).
Proof.
  intros Hm. induction ms as [|m ms IH].
  - apply keeps_ret.
  - apply keeps_bind; [apply Hm | intros _; exact IH].
Qed.

Lemma loop_turn_keeps_session_inv (L : Z) (m : Message) :
  keeps (session_inv L) (fun _ => True) (_mtproto_loop_turn m).
Proof.
  apply keeps_session_inv.
  - apply loop_turn_keeps_session_wf.
  - apply (keeps_swallow _ _ (fun _ => True)).
    apply keeps_bind; [apply dispatch_keeps_seq_no | intros _].
    keeps_go seq_no_fin.
  - apply (keeps_swallow _ _ (fun _ => True)).
    apply keeps_bind; [apply dispatch_keeps_counters | intros _].
    unfold counters_above. keeps_go counters_fin.
Qed.

Lemma after_keeps_session_inv (L : Z) (e : Event) (w : World) :
  session_inv L w -> session_inv L (after e w).
Proof.
  intros Hw. destruct e as [message| |m| |h|slot]; cbn [after].
  - apply (rpc_call_keeps_session_inv L message w Hw).
  - apply (disconnect_keeps_session_inv L w Hw).
  - destruct (loop_running w); [|exact Hw].
    apply (loop_turn_keeps_session_inv L m w Hw).
  - destruct (loop_running w); [|exact Hw].
    destruct Hw as [[H1 H2] H3].
    split; [split; [intros _; discriminate | exact H2] | exact H3].
  - unfold fire. destruct (timers w !! h) as [t|]; [|exact Hw].
    destruct (cancelled t); [exact Hw|].
    apply (callbacks_keep_session_inv L (callback t) w Hw).
  - unfold future_cancel. destruct (futures w !! slot); exact Hw.
Qed.

Lemma run_keeps_session_inv (L : Z) (es : list Event) :
  forall w, session_inv L w -> session_inv L (run es w).
Proof.
  induction es as [|e es IH]; intros w Hw; [exact Hw|].
  apply IH, after_keeps_session_inv, Hw.
Qed.

Lemma run_app (es1 es2 : list Event) (w : World) :
  run (es1 ++ es2) w = run es2 (run es1 w).
Proof. apply foldl_app. Qed.

Lemma init_world_session_inv (now : Q) : session_inv 0 (init_world now).
Proof.
  split; [split; [|reflexivity] | split; cbn; lia].
  intros H. exfalso. apply H. reflexivity.
Qed.

(** X7.  Whatever callers, the server, the timers and the transport do to a
    client, starting from the state its constructor leaves: a transport
    handle is never held without a loop task (so the test
    [self._mtproto_loop_task.done()] that opens [_rpc_call] and the
    [cancel()] in [disconnect] never meet [None]), [_seq_no] is still -1,
    [_seqno_increment] is at least 1, and [_last_seqno] is not negative. *)
Theorem X7_reachable_sessions (now : Q) (es : list Event) :
  let w := run es (init_world now) in
  session_wf w /\
  _seq_no (client w) = -1 /\
  1 <= _seqno_increment (client w) /\
  0 <= _last_seqno (client w) /\
  (disconnect w).2 = Ok tt.
Proof.
  intros w.
  assert (session_inv 0 w) as [[Hwf Hsq] [Hinc Hlast]].
  { apply run_keeps_session_inv, init_world_session_inv. }
  repeat split; try assumption.
  rewrite disconnect_eq. unfold session_wf in Hwf.
  destruct (_mtproto (client w)) as [t|]; [|reflexivity].
  destruct (_mtproto_loop_task (client w)); [reflexivity|].
  exfalso. apply Hwf; [discriminate | reflexivity].
Qed.

(** X8.  [_last_seqno] never goes back: along any run of a client from the
    state its constructor leaves, its value after more events is at least
    its value before them.  And when the read loop takes a message, the
    counter ends at or above the seqno of that message, whatever the
    handlers do and whether or not they raise. *)
Theorem X8_last_seqno_monotone (now : Q) (es es' : list Event)
  (msg_id seqno : Z) (body : Structure) :
  let w := run es (init_world now) in
  _last_seqno (client w) <= _last_seqno (client (run (es ++ es') (init_world now))) /\
  (loop_running w = true ->
   seqno <= _last_seqno (client (after (ev_received (mkMessage msg_id seqno body)) w))).
Proof.
  intros w.
  assert (session_inv 0 w) as Hinv.
  { apply run_keeps_session_inv, init_world_session_inv. }
  split.
  - rewrite run_app. fold w.
    assert (session_inv (_last_seqno (client w)) w) as Hw.
    { destruct Hinv as [H1 [H2 H3]]. repeat split; try assumption; try apply H1. lia. }
    apply (run_keeps_session_inv _ es' w Hw).
  - intros Hrun. cbn [after]. rewrite Hrun.
    unfold _mtproto_loop_turn, swallow. cbn [fst].
    set (w1 := with_client
                 (_update_last_seqno_from_incoming_message
                    (mkMessage msg_id seqno body)) w).
    assert (counters_above seqno w1) as Hw1.
    { destruct Hinv as [_ [H2 H3]]. split; [exact H2 | cbn; lia]. }
    assert (forall k : unit -> M unit,
              keeps (counters_above seqno) (fun _ => True) (k tt) ->
              counters_above seqno
                (bind (modify_client
                         (_update_last_seqno_from_incoming_message
                            (mkMessage msg_id seqno body))) k w).1) as Hk.
    { intros k Hkk. unfold bind, modify_client. apply (Hkk w1 Hw1). }
    assert (keeps (counters_above seqno) (fun _ => True)
              _flush_msgids_to_ack_if_needed) as Hflush.
    { unfold counters_above. keeps_go counters_fin. }
    cbn [_process_telegram_message].
    match goal with
    | |- _ <= _last_seqno (client (bind (bind ?m ?k) ?k2 w).1) =>
        assert (bind (bind m k) k2 w = bind m (fun x => bind (k x) k2) w) as ->
    end.
    { unfold bind, modify_client. reflexivity. }
    apply Hk.
    apply keeps_bind; [|intros _; exact Hflush].
    pose proof (dispatch_keeps_counters seqno) as Hd.
    pose proof (body_keeps_counters seqno) as Hb.
    pose proof (acknowledge_keeps_counters seqno msg_id seqno) as Ha.
    destruct body as [req res|mid pid|bad salt|bad code|ms|packed|tag fields];
      try (apply keeps_bind; [apply Hb | intros _; apply Ha]).
    + apply keeps_each, Hd.
    + destruct packed as [req res|mid pid|bad salt|bad code|ms|packed|tag fields];
        try (apply keeps_bind; [apply Hb | intros _; apply Ha]).
      apply keeps_each, Hd.
Qed.

(** ** Seqnos on the wire *)

Lemma keeps_leads {A} (J : World -> Prop) (m : M A) :
  keeps J (fun _ => True) m <-> leads J m J.
Proof.
  split.
  - intros H w Hw. apply (H w Hw).
  - intros H w Hw. split; [apply (H w Hw) | intros; exact I].
Qed.

Lemma leads_bind {A B} (Pre Mid Post : World -> Prop) (m : M A) (k : A -> M B) :
  leads Pre m Mid -> (forall w, Mid w -> Post w) ->
  (forall a, leads Mid (k a) Post) -> leads Pre (bind m k) Post.
Proof.
  intros Hm Hsub Hk w Hw. unfold bind. specialize (Hm w Hw).
  destruct (m w) as [w1 [a|e]]; cbn in *; [apply Hk, Hm | apply Hsub, Hm].
Qed.

Lemma leads_bind_val {A B} (Pre Post : World -> Prop) (Q : A -> World -> Prop)
  (m : M A) (k : A -> M B) :
  (forall w, Pre w ->
     match m w with
     | (w', Ok a) => Q a w'
     | (w', Raise _) => Post w'
     end) ->
  (forall a, leads (Q a) (k a) Post) -> leads Pre (bind m k) Post.
Proof.
  intros Hm Hk w Hw. unfold bind. specialize (Hm w Hw).
  destruct (m w) as [w1 [a|e]]; cbn in *; [apply Hk, Hm | exact Hm].
Qed.

Lemma neutral_leads {A} (I : World -> Prop) (m : M A) :
  neutral m ->
  (forall w w', wire_view w = wire_view w' -> I w -> I w') ->
  leads I m I.
Proof.
  intros Hn HI w Hw. destruct (Hn (wire_view w) w eq_refl) as [H _].
  apply (HI w); [symmetry; exact H | exact Hw].
Qed.

Lemma wire_inv_view (w w' : World) :
  wire_view w = wire_view w' -> wire_inv w -> wire_inv w'.
Proof.
  unfold wire_view, wire_inv. intros [= H1 H2 H3]. rewrite H1, H2, H3. auto.
Qed.

Lemma ready_to_write_view (s : Z) (w w' : World) :
  wire_view w = wire_view w' -> ready_to_write s w -> ready_to_write s w'.
Proof.
  intros Hv [H1 [H2 H3]]. split; [exact (wire_inv_view _ _ Hv H1)|].
  unfold wire_view in Hv. injection Hv as Ha Hb Hc. rewrite <- Ha, <- Hb. auto.
Qed.

Lemma neutral_keeps_wire_inv {A} (m : M A) :
  neutral m -> keeps wire_inv (fun _ => True) m.
Proof. intros H. apply keeps_leads, (neutral_leads _ _ H), wire_inv_view. Qed.

Lemma sorted_snoc {A} (R : A -> A -> Prop) (l : list A) (x : A) :
  StronglySorted R l -> Forall (fun y => R y x) l -> StronglySorted R (l ++ [x]).
Proof.
  induction 1 as [|a l Hs IH Ha]; intros Hx; cbn.
  - repeat constructor.
  - apply Forall_cons in Hx as [Hax Hx]. constructor; [apply IH, Hx|].
    apply Forall_app. split; [exact Ha | constructor; [exact Hax | constructor]].
Qed.

(** Writing under a seqno that was just allocated. *)
Lemma write_keeps_wire_ok (b s : Z) (fields : Dict) (t : MTProto) :
  wire_ok b t ->
  Forall (fun f => f_seqno f < s) (outbox t) ->
  frame_ok (mkFrame (last_msg_id t + 1) s fields) ->
  wire_ok s (write s fields t).2.
Proof.
  intros (Hs & Hb & Hf) Hlt Hok. unfold wire_ok, write. cbn.
  split; [apply sorted_snoc; assumption|]. split.
  - apply Forall_app. split; [|constructor; [cbn; lia | constructor]].
    eapply Forall_impl; [exact Hlt|]. cbn. intros f Hf'. lia.
  - apply Forall_app. split; [exact Hf | constructor; [exact Hok | constructor]].
Qed.

Lemma wire_ok_bound (b b' : Z) (t : MTProto) :
  b <= b' -> wire_ok b t -> wire_ok b' t.
Proof.
  intros Hb (Hs & Hle & Hf). split; [exact Hs|]. split; [|exact Hf].
  eapply Forall_impl; [exact Hle|]. cbn. intros f Hf'. lia.
Qed.

Lemma wire_ok_below (b s : Z) (t : MTProto) :
  b < s -> wire_ok b t -> Forall (fun f => f_seqno f < s) (outbox t).
Proof.
  intros Hb (_ & Hle & _). eapply Forall_impl; [exact Hle|].
  cbn. intros f Hf'. lia.
Qed.

(** Allocating a seqno makes the session ready to write under it. *)
Lemma alloc_ready (k : AllocCall) (w : World) :
  wire_inv w ->
  match on_client (alloc k) w with
  | (w', Ok s) => ready_to_write s w' /\ has_parity k s
  | (w', Raise _) => wire_inv w'
  end.
Proof.
  intros [Hinc Hwire]. pose proof (alloc_spec k (client w)) as (Hpar & Hlt & Hlast).
  unfold on_client. destruct (alloc k (client w)) as [s c'] eqn:E. cbn in *.
  assert (_mtproto c' = _mtproto (client w) /\
          _seqno_increment c' = _seqno_increment (client w)) as [Hm Hi].
  { destruct k; cbn in E; injection E as <- <-; split; reflexivity. }
  split; [|exact Hpar]. split; [split|split]; cbn.
  - rewrite Hi. exact Hinc.
  - intros t Ht. rewrite Hm in Ht. rewrite Hlast.
    apply (wire_ok_bound (_last_seqno (client w))); [lia | auto].
  - exact Hlast.
  - intros t Ht. rewrite Hm in Ht.
    apply (wire_ok_below (_last_seqno (client w))); [lia | auto].
Qed.

Lemma write_when_ready (s : Z) (fields : Dict) :
  (forall id, frame_ok (mkFrame id s fields)) ->
  leads (ready_to_write s) (mtproto_write s fields) wire_inv.
Proof.
  intros Hok w [[Hinc Hwire] [Hlast Hbelow]]. unfold mtproto_write.
  destruct (_mtproto (client w)) as [t|] eqn:Hm; cbn.
  - split; cbn; [exact Hinc|]. intros t' [= <-]. rewrite Hlast.
    apply (write_keeps_wire_ok (_last_seqno (client w))); auto.
  - split; [exact Hinc|]. intros t Ht. rewrite Hm in Ht. discriminate.
Qed.

Ltac neutral_go :=
  let v := fresh "v" in
  intros v; unfold wire_view; keeps_go ltac:(try exact I; try assumption).

(** A computation that leaves the transport and the counters alone keeps
    [wire_inv], and [ready_to_write]. *)
Ltac wire_neutral :=
  lazymatch goal with
  | |- keeps wire_inv _ _ => apply neutral_keeps_wire_inv; neutral_go
  | |- leads wire_inv _ wire_inv =>
      apply keeps_leads, neutral_keeps_wire_inv; neutral_go
  | |- leads (ready_to_write ?s) _ (ready_to_write ?s) =>
      apply neutral_leads; [neutral_go | apply ready_to_write_view]
  end.

Lemma ready_is_wire_inv (s : Z) (w : World) : ready_to_write s w -> wire_inv w.
Proof. intros [H _]. exact H. Qed.

Lemma flush_keeps_wire_inv :
  keeps wire_inv (fun _ => True) _flush_msgids_to_ack.
Proof.
  unfold _flush_msgids_to_ack.
  apply keeps_bind; [wire_neutral | intros now].
  apply keeps_bind; [wire_neutral | intros _].
  apply keeps_bind; [wire_neutral | intros c].
  destruct (_msgids_to_ack c) as [|id ids]; [apply keeps_ret|].
  destruct (_stable_seqno c); [|apply keeps_ret]. cbn [orb negb].
  apply keeps_leads.
  apply (leads_bind_val _ _
           (fun s w => ready_to_write s w /\ has_parity next_even s)).
  { intros w Hw. apply (alloc_ready next_even w Hw). }
  intros s w [Hr Hp]. revert w Hr.
  apply leads_bind with (Mid := wire_inv); [|auto|].
  - apply write_when_ready. intros mid. right. split; [exact Hp | eauto].
  - intros [mid write_future]. apply keeps_leads.
    apply keeps_bind; [wire_neutral | intros _; wire_neutral].
Qed.

Lemma ping_keeps_wire_inv :
  keeps wire_inv (fun _ => True) _create_new_ping_request.
Proof.
  unfold _create_new_ping_request.
  apply keeps_bind; [wire_neutral | intros new_random_ping_id].
  apply keeps_leads.
  apply (leads_bind_val _ _
           (fun s w => ready_to_write s w /\ has_parity next_odd s)).
  { intros w Hw. apply (alloc_ready next_odd w Hw). }
  intros s w [Hr Hp]. revert w Hr.
  apply leads_bind with (Mid := ready_to_write s);
    [wire_neutral | apply ready_is_wire_inv | intros slot].
  apply leads_bind with (Mid := ready_to_write s);
    [wire_neutral | apply ready_is_wire_inv | intros h].
  apply leads_bind with (Mid := ready_to_write s);
    [wire_neutral | apply ready_is_wire_inv | intros _].
  apply leads_bind with (Mid := wire_inv); [|auto|].
  - apply write_when_ready. intros mid. left. exact Hp.
  - intros [message_id write_future]. apply keeps_leads.
    apply keeps_bind; [wire_neutral | intros _; wire_neutral].
Qed.

Lemma start_keeps_wire_inv :
  outbox new_MTProto = [] ->
  keeps wire_inv (fun _ => True) _start_mtproto_loop.
Proof.
  intros Hnew. unfold _start_mtproto_loop.
  apply keeps_bind; [wire_neutral | intros _].
  apply keeps_bind; [wire_neutral | intros c].
  apply keeps_bind; [wire_neutral | intros _].
  apply keeps_bind; [|intros _; apply ping_keeps_wire_inv].
  intros w [Hinc _]. split; [|intros; exact I].
  split; [exact Hinc|]. cbn. intros t [= <-]. unfold wire_ok. rewrite Hnew.
  repeat split; constructor.
Qed.

Lemma ensure_keeps_wire_inv :
  outbox new_MTProto = [] ->
  keeps wire_inv (fun _ => True) ensure_mtproto_loop.
Proof.
  intros Hnew. pose proof (start_keeps_wire_inv Hnew) as Hstart.
  unfold ensure_mtproto_loop.
  apply keeps_bind; [wire_neutral | intros c].
  destruct (_mtproto c); [|exact Hstart].
  destruct (_mtproto_loop_task c) as [task|]; [|wire_neutral].
  destruct (task_done task); [exact Hstart | apply keeps_ret].
Qed.

Lemma rpc_resend_keeps_wire_inv (pr : _PendingRequest) (no_response : bool) :
  outbox new_MTProto = [] ->
  keeps wire_inv (fun _ => True) (_rpc_call pr no_response).
Proof.
  intros Hnew. unfold _rpc_call.
  apply keeps_bind; [apply ensure_keeps_wire_inv, Hnew | intros _].
  apply keeps_bind; [apply flush_keeps_wire_inv | intros _].
  apply keeps_leads.
  apply (leads_bind_val _ _
           (fun s w => ready_to_write s w /\ has_parity next_odd s)).
  { intros w Hw. apply (alloc_ready next_odd w Hw). }
  intros s w [Hr Hp]. revert w Hr.
  apply leads_bind with (Mid := wire_inv); [|auto|].
  { apply write_when_ready. intros mid. left. exact Hp. }
  intros [message_id write_future]. apply keeps_leads.
  apply keeps_bind; [wire_neutral | intros _].
  apply keeps_bind; [wire_neutral | intros _].
  apply keeps_bind; [wire_neutral | intros _].
  apply keeps_bind; [|intros _; wire_neutral].
  intros w [Hinc Hwire]. split; [|intros; exact I].
  split; [cbn; lia | exact Hwire].
Qed.

Lemma rpc_call_keeps_wire_inv (message : Dict) :
  outbox new_MTProto = [] ->
  keeps wire_inv (fun _ => True) (rpc_call message).
Proof.
  intros Hnew. unfold rpc_call.
  destruct (message !! "_cons"); [|wire_neutral].
  apply keeps_bind; [wire_neutral | intros slot].
  apply rpc_resend_keeps_wire_inv, Hnew.
Qed.

Lemma bad_server_salt_keeps_wire_inv (bad_msg_id new_server_salt : Z) :
  outbox new_MTProto = [] ->
  keeps wire_inv (fun _ => True)
    (_process_bad_server_salt bad_msg_id new_server_salt).
Proof.
  intros Hnew w Hw. split; [|intros; exact I].
  destruct (_mtproto (client w)) as [t|] eqn:Hm.
  - rewrite (process_bad_server_salt_eq _ _ _ t Hm).
    assert (wire_inv (salt_installed new_server_salt t w)) as Hs.
    { destruct Hw as [Hinc Hwire]. specialize (Hwire t Hm).
      unfold salt_installed. split; cbn.
      - destruct (bool_decide _); exact Hinc.
      - intros t' [= <-]. destruct (bool_decide _); exact Hwire. }
    destruct (_pending_requests (client w) !! bad_msg_id) as [pr|]; [|exact Hs].
    rewrite bind_ret_world.
    apply (rpc_resend_keeps_wire_inv pr true Hnew).
    exact (wire_inv_view _ _ eq_refl Hs).
  - unfold _process_bad_server_salt, bind, get_client. rewrite Hm. exact Hw.
Qed.

Lemma seqno_too_low_keeps_wire_inv (bad_msg_id : Z) :
  outbox new_MTProto = [] ->
  keeps wire_inv (fun _ => True)
    (_process_bad_msg_notification_msg_seqno_too_low bad_msg_id).
Proof.
  intros Hnew w Hw. split; [|intros; exact I].
  rewrite process_seqno_too_low_eq.
  assert (wire_inv (seqno_bumped w)) as Hs.
  { destruct Hw as [Hinc Hwire].
    pose proof (doubled_increment_positive _ Hinc) as Hpos.
    split; cbn; [exact Hpos|]. intros t Ht.
    apply (wire_ok_bound (_last_seqno (client w))); [lia | auto]. }
  destruct (_pending_requests (client w) !! bad_msg_id) as [pr|]; [|exact Hs].
  rewrite bind_ret_world.
  apply (rpc_resend_keeps_wire_inv pr true Hnew).
  exact (wire_inv_view _ _ eq_refl Hs).
Qed.

Lemma body_keeps_wire_inv (body : Structure) :
  outbox new_MTProto = [] ->
  keeps wire_inv (fun _ => True) (_process_telegram_message_body body).
Proof.
  intros Hnew.
  destruct body as [req res|mid pid|bad salt|bad code|ms|packed|tag fields];
    cbn [_process_telegram_message_body]; try apply keeps_ret.
  - wire_neutral.
  - wire_neutral.
  - apply bad_server_salt_keeps_wire_inv, Hnew.
  - apply keeps_bind; [wire_neutral | intros c].
    destruct ((code =? 32) && negb (_stable_seqno c)); [|apply keeps_ret].
    apply seqno_too_low_keeps_wire_inv, Hnew.
Qed.

Lemma acknowledge_keeps_wire_inv (msg_id seqno : Z) :
  keeps wire_inv (fun _ => True) (_acknowledge_telegram_message msg_id seqno).
Proof.
  unfold _acknowledge_telegram_message.
  destruct (seqno mod 2 =? 1); [|apply keeps_ret].
  apply keeps_bind; [wire_neutral | intros _; apply flush_keeps_wire_inv].
Qed.

Lemma dispatch_keeps_wire_inv (m : Message) :
  outbox new_MTProto = [] ->
  keeps wire_inv (fun _ => True) (_process_telegram_message m).
Proof.
  intros Hnew. revert m. apply keeps_process_telegram_message.
  - intros [msg_id seqno body] w [Hinc Hwire]. split; [|discriminate].
    split; [exact Hinc|]. cbn. intros t Ht.
    apply (wire_ok_bound (_last_seqno (client w))); [lia | auto].
  - intros body. apply body_keeps_wire_inv, Hnew.
  - apply acknowledge_keeps_wire_inv.
Qed.

Lemma loop_turn_keeps_wire_inv (m : Message) :
  outbox new_MTProto = [] ->
  keeps wire_inv (fun _ => True) (_mtproto_loop_turn m).
Proof.
  intros Hnew. apply (keeps_swallow _ _ (fun _ => True)).
  apply keeps_bind; [apply dispatch_keeps_wire_inv, Hnew | intros _].
  unfold _flush_msgids_to_ack_if_needed.
  apply keeps_bind; [wire_neutral | intros c].
  destruct (32 <=? Z.of_nat (length (_msgids_to_ack c)));
    [apply flush_keeps_wire_inv|].
  apply keeps_bind; [wire_neutral | intros now].
  destruct (Qle_bool _ _); [apply keeps_ret | apply flush_keeps_wire_inv].
Qed.

Lemma disconnect_keeps_wire_inv :
  keeps wire_inv (fun _ => True) disconnect.
Proof.
  unfold disconnect.
  apply keeps_bind; [wire_neutral | intros _].
  apply keeps_bind; [wire_neutral | intros c].
  apply keeps_bind; [wire_neutral | intros _].
  apply keeps_bind; [|intros _; wire_neutral].
  intros w [Hinc _]. split; [|intros; exact I].
  split; [exact Hinc | cbn; discriminate].
Qed.

Lemma after_keeps_wire_inv (e : Event) (w : World) :
  outbox new_MTProto = [] -> wire_inv w -> wire_inv (after e w).
Proof.
  intros Hnew Hw. destruct e as [message| |m| |h|slot]; cbn [after].
  - apply (rpc_call_keeps_wire_inv message Hnew w Hw).
  - apply (disconnect_keeps_wire_inv w Hw).
  - destruct (loop_running w); [|exact Hw].
    apply (loop_turn_keeps_wire_inv m Hnew w Hw).
  - destruct (loop_running w); [|exact Hw].
    exact (wire_inv_view _ _ eq_refl Hw).
  - unfold fire. destruct (timers w !! h) as [t|]; [|exact Hw].
    destruct (cancelled t); [exact Hw|].
    destruct (callback t) as [|msg_id|]; cbn [run_callback].
    + apply (disconnect_keeps_wire_inv w Hw).
    + assert (keeps wire_inv (fun _ => True)
                (_delete_pending_request msg_id true)) as Hd by wire_neutral.
      apply (Hd w Hw).
    + apply (keeps_swallow wire_inv (fun _ => True) (fun _ => True) _
               ping_keeps_wire_inv w Hw).
  - unfold future_cancel. destruct (futures w !! slot); [exact Hw|].
    exact (wire_inv_view _ _ eq_refl Hw).
Qed.

(** X9.  Seqnos on the wire.  Let a new transport start with nothing sent.
    Whatever callers, the server, the timers and the transport do to a
    client from the state its constructor leaves, the frames it has handed
    to its current transport carry strictly increasing seqnos, in the order
    they were written, none above [_last_seqno]; and every frame is either
    under an odd seqno or an acknowledgment ([msgs_ack]) of at least one
    message id under an even seqno. *)
Theorem X9_wire_seqnos_increase (now : Q) (es : list Event) (t : MTProto) :
  outbox new_MTProto = [] ->
  _mtproto (client (run es (init_world now))) = Some t ->
  StronglySorted Z.lt (f_seqno <$> outbox t) /\
  Forall (fun f => f_seqno f <= _last_seqno (client (run es (init_world now))))
    (outbox t) /\
  Forall frame_ok (outbox t).
Proof.
  intros Hnew Ht.
  assert (forall w, wire_inv w -> wire_inv (run es w)) as Hrun.
  { clear Ht. induction es as [|e es IH]; intros w Hw; [exact Hw|].
    change (wire_inv (run es (after e w))).
    apply IH, after_keeps_wire_inv; assumption. }
  assert (wire_inv (init_world now)) as H0.
  { split; [cbn; lia | cbn; discriminate]. }
  destruct (Hrun _ H0) as [_ Hwire].
  destruct (Hwire t Ht) as (Hs & Hb & Hf). repeat split; try assumption.
  clear -Hs. induction Hs as [|f l Hs IH Hf]; cbn; constructor; [exact IH|].
  apply Forall_fmap. exact Hf.
Qed.

End Model.

(** * Examples: the theorems at concrete inputs *)

(** The runs below use these oracles: every write completes (or, for
    [dispatch_failing], fails with [OSError]), the clock reads 5, and a new
    transport starts at message id 1000. *)
Abbreviation dispatch :=
  (_process_telegram_message writes_succeed (clock_at 5) ping_ids
     transport_1000 fields_of).
Abbreviation dispatch_failing :=
  (_process_telegram_message (writes_fail OSError) (clock_at 5) ping_ids
     transport_1000 fields_of).
Abbreviation loop_turn :=
  (turn writes_succeed (clock_at 5) ping_ids transport_1000 fields_of).
Abbreviation retry :=
  (seqno_retry writes_succeed (clock_at 5) ping_ids transport_1000 fields_of).
Abbreviation the_first_call :=
  (first_call writes_succeed (clock_at 5) ping_ids transport_1000).
Abbreviation timed_out_call :=
  (first_call_timed_out writes_succeed (clock_at 5) ping_ids transport_1000).
Abbreviation the_backlog_32 :=
  (backlog_32 writes_succeed (clock_at 5) ping_ids transport_1000 fields_of).
Abbreviation the_backlog_32_timed_out :=
  (backlog_32_timed_out writes_succeed (clock_at 5) ping_ids transport_1000
     fields_of).
Abbreviation the_backlog_31_stable :=
  (backlog_31_stable writes_succeed (clock_at 5) ping_ids transport_1000 fields_of).

(** A fresh client whose clock has moved from 0 to 5 flushes an empty
    buffer: nothing is written, yet [_last_time_acks_flushed] moves to 5. *)
Lemma C5_counterexample :
  _msgids_to_ack (client (init_world 0)) = [] /\
  _stable_seqno (client (init_world 0)) = false /\
  (_flush_msgids_to_ack writes_succeed (clock_at 5) (init_world 0)).2 = Ok tt /\
  _last_time_acks_flushed
    (client (_flush_msgids_to_ack writes_succeed (clock_at 5) (init_world 0)).1)
  <> _last_time_acks_flushed (client (init_world 0)).
Proof.
  repeat split. vm_compute. discriminate.
Qed.

Lemma C5_witness :
  _flush_msgids_to_ack writes_succeed (clock_at 5) (init_world 0) =
    (after_flush_noop (clock_at 5) (init_world 0), Ok tt) /\
  _flush_msgids_to_ack writes_succeed (clock_at 5)
    (connected transport_1000
       (with_client (fun c => set_stable_seqno true (set_msgids_to_ack [41; 43] c))
          (init_world 0))) =
    (after_flush_write (clock_at 5)
       (connected transport_1000
          (with_client (fun c => set_stable_seqno true (set_msgids_to_ack [41; 43] c))
             (init_world 0)))
       transport_1000 true, Ok tt).
Proof.
  split.
  - apply (C5_flush_msgids_to_ack writes_succeed (clock_at 5) (init_world 0)).
    left. reflexivity.
  - apply (C5_flush_msgids_to_ack writes_succeed (clock_at 5)
             (connected transport_1000
                (with_client (fun c => set_stable_seqno true (set_msgids_to_ack [41; 43] c))
                   (init_world 0))) ).
    + discriminate.
    + reflexivity.
    + reflexivity.
Defined.

(** An [rpc_result] for message 1000 reaches a fresh client, whose registry
    is empty: [_stable_seqno] turns from false to true. *)
Lemma C3_counterexample :
  _pending_requests (client (init_world 0)) !! 1000 = None /\
  _stable_seqno (client (init_world 0)) = false /\
  _stable_seqno
    (client (_process_rpc_result fields_of 1000 (other_cons "config" ∅)
               (init_world 0)).1) = true /\
  (_process_rpc_result fields_of 1000 (other_cons "config" ∅) (init_world 0)).1
  <> init_world 0.
Proof.
  repeat split. intros H.
  apply (f_equal (fun w => _stable_seqno (client w))) in H. discriminate H.
Qed.

Lemma C3_witness :
  _process_rpc_result fields_of 1000 (other_cons "config" ∅) (init_world 0) =
    (with_client (set_stable_seqno true) (init_world 0), Ok tt).
Proof.
  apply (C3_process_rpc_result fields_of 1000 (other_cons "config" ∅) (init_world 0)).
  reflexivity.
Defined.

Lemma C7_witness :
  rpc_call writes_succeed (clock_at 5) ping_ids transport_1000 ∅ (init_world 0) =
    (init_world 0, Raise RuntimeError_cons_required) /\
  (rpc_call writes_succeed (clock_at 5) ping_ids transport_1000 getConfig
     (init_world 0)).2 <> Raise RuntimeError_cons_required.
Proof.
  split.
  - apply (C7_rpc_call_usage_error writes_succeed (clock_at 5) ping_ids
             transport_1000 ∅ (init_world 0)); reflexivity.
  - intros H.
    apply (C7_rpc_call_usage_error writes_succeed (clock_at 5) ping_ids
             transport_1000 getConfig (init_world 0)) in H; [|reflexivity].
    discriminate H.
Defined.

(** A session whose transport holds the salt 0x1234 and in which request
    1000 is pending on future 0. *)
Lemma C4_witness :
  _stable_seqno
    (client
       (_process_bad_server_salt writes_succeed (clock_at 5) ping_ids
          transport_1000 1000 43981 (in_flight true 4660)).1) = false /\
  get_server_salt <$>
    _mtproto
      (client
         (_process_bad_server_salt writes_succeed (clock_at 5) ping_ids
            transport_1000 1000 43981 (in_flight true 4660)).1) = Some 43981.
Proof.
  split.
  - apply (C4_process_bad_server_salt writes_succeed (clock_at 5) ping_ids
             transport_1000 1000 43981 (in_flight true 4660)
             (transport_sent_1000 4660)); [reflexivity | reflexivity | discriminate].
  - apply (C4_process_bad_server_salt writes_succeed (clock_at 5) ping_ids
             transport_1000 1000 43981 (in_flight true 4660)
             (transport_sent_1000 4660)); reflexivity.
Defined.

(** Request 1000 is in flight with [_stable_seqno] false and
    [_seqno_increment] 1.  The notification for 1000 re-sends it as 1001 and
    leaves [_seqno_increment] at 3 with [_last_seqno] advanced by 4; the
    notification for 1001 that follows leaves [_seqno_increment] at 7. *)
Lemma C2_counterexample :
  _stable_seqno (client (in_flight false 0)) = false /\
  _seqno_increment (client (in_flight false 0)) = 1 /\
  _pending_requests (client (retry 1000 (in_flight false 0))) !! 1001 =
    Some (mkPendingRequest 0 getConfig) /\
  _seqno_increment (client (retry 1000 (in_flight false 0))) = 3 /\
  _seqno_increment (client (retry 1000 (in_flight false 0))) <> 2 /\
  _last_seqno (client (retry 1000 (in_flight false 0))) =
    _last_seqno (client (in_flight false 0)) + 4 /\
  _seqno_increment (client (retry 1001 (retry 1000 (in_flight false 0)))) = 7 /\
  _seqno_increment (client (retry 1001 (retry 1000 (in_flight false 0)))) <> 4.
Proof.
  repeat split; try (vm_compute; reflexivity); vm_compute; discriminate.
Qed.

Lemma C2_witness :
  exists w',
    _process_telegram_message_body writes_succeed (clock_at 5) ping_ids
      transport_1000 fields_of (bad_msg_notification 1000 32) (in_flight false 0)
    = (w', Ok tt) /\
    _seqno_increment (client w') = 3 /\
    _last_seqno (client w') = 5.
Proof.
  destruct (C2_seqno_too_low writes_succeed (clock_at 5) ping_ids
              transport_1000 fields_of 1000 (in_flight false 0) eq_refl)
    as (_ & H & _).
  destruct (H (mkPendingRequest 0 getConfig) (transport_sent_1000 0)
              (VStr "help.getConfig") eq_refl eq_refl eq_refl eq_refl eq_refl)
    as (w' & Hrun & Hinc & Hlast & _).
  exists w'. split; [exact Hrun | split; [exact Hinc | exact Hlast]].
Defined.

Lemma init_world_session_wf (now : Q) : session_wf (init_world now).
Proof. intros H. exfalso. apply H. reflexivity. Qed.

Lemma C8_witness :
  disconnect (in_flight false 0) = (disconnected (in_flight false 0), Ok tt) /\
  disconnect (disconnected (in_flight false 0)) =
    (disconnected (in_flight false 0), Ok tt) /\
  futures (disconnected (in_flight false 0)) !! 0%nat =
    Some (FException InterruptedError).
Proof.
  assert (session_wf (in_flight false 0)) as Hwf by (intros _; discriminate).
  destruct (C8_disconnect_idempotent (in_flight false 0) Hwf)
    as (H1 & H2 & _ & _ & _ & _ & _ & H3 & _).
  split; [exact H1|]. split; [exact H2|].
  exact (H3 1000 (mkPendingRequest 0 getConfig) eq_refl).
Defined.

(** Two departures from the rule.  (1) A container of two updates with odd
    seqnos reaches a session whose [_stable_seqno] is true while writes
    fail: the first update is enqueued, its flush raises, and the second
    update is never dispatched nor enqueued.  (2) The [rpc_result] for
    request 1001 arrives, with odd seqno 1, after the caller's wait timed
    out: the handler raises on the cancelled future and the message is not
    enqueued. *)
Lemma C6_counterexample :
  (ack_eligible_ids two_updates = [5001; 5003] /\
   (dispatch_failing two_updates (in_flight true 0)).2 =
     Raise (WriteRaised OSError) /\
   ack_log (dispatch_failing two_updates (in_flight true 0)).1 = [5001]) /\
  (ack_eligible_ids result_1001 = [6001] /\
   _pending_requests (client timed_out_call) !! 1001 =
     Some (mkPendingRequest 0 getConfig) /\
   (dispatch result_1001 timed_out_call).2 = Raise InvalidStateError /\
   ack_log (dispatch result_1001 timed_out_call).1 = []).
Proof.
  repeat split; vm_compute; reflexivity.
Qed.

Lemma C6_witness :
  (ack_log (dispatch sample_container (in_flight false 0)).1 = [5001; 5003] /\
   buffer_logged (dispatch sample_container (in_flight false 0)).1) /\
  ((dispatch result_1001 timed_out_call).2 = Raise InvalidStateError /\
   ack_log (dispatch result_1001 timed_out_call).1 = ack_log timed_out_call).
Proof.
  split.
  - destruct (C6_dispatcher_acknowledges writes_succeed (clock_at 5) ping_ids
                transport_1000 fields_of sample_container (in_flight false 0))
      as (_ & (d & H1 & _ & H3) & H4 & _).
    split.
    + rewrite H1, (H3 eq_refl). reflexivity.
    + apply H4. apply suffix_nil.
  - destruct (C6_dispatcher_acknowledges writes_succeed (clock_at 5) ping_ids
                transport_1000 fields_of result_1001 timed_out_call)
      as (_ & _ & _ & H & _).
    destruct (H 6001 1 (rpc_result 1001 (other_cons "config" ∅)) eq_refl eq_refl)
      as [Hraise _].
    destruct (_process_telegram_message_body writes_succeed (clock_at 5)
                ping_ids transport_1000 fields_of
                (unwrapped (rpc_result 1001 (other_cons "config" ∅)))
                (with_client
                   (_update_last_seqno_from_incoming_message result_1001)
                   timed_out_call)) as [w2 r] eqn:E.
    assert (r = Raise InvalidStateError) as ->.
    { change r with (w2, r).2. rewrite <- E. vm_compute. reflexivity. }
    destruct (Hraise w2 InvalidStateError eq_refl) as [Heq Hlog].
    rewrite Heq. split; [reflexivity | exact Hlog].
Defined.

(** Every write completes.  (1) With 32 ids buffered, the even [rpc_result]
    is dispatched: it returns, [_stable_seqno] is true and the buffer holds
    32 ids; the threshold check that follows sends those 32 ids.  (2) With
    31 ids buffered and [_stable_seqno] turned on the same way, the next
    update brings the buffer to 32 ids, which its flush sends.  (3) With 32
    ids buffered, the [rpc_result] for request 1001 arrives under the odd
    seqno 1 after its caller timed out: the handler has set [_stable_seqno]
    when it raises, so the turn ends with 32 ids buffered and
    [_stable_seqno] true. *)
Lemma C10_counterexample :
  ((dispatch even_rpc_result the_backlog_32).2 = Ok tt /\
   length (_msgids_to_ack (client (dispatch even_rpc_result the_backlog_32).1))
   = 32%nat /\
   _stable_seqno (client (dispatch even_rpc_result the_backlog_32).1) = true /\
   last_frame_fields (loop_turn the_backlog_32 even_rpc_result) =
     Some (msgs_ack (map (fun i => 5000 + Z.of_nat i) (seq 0 32)))) /\
  (_stable_seqno (client the_backlog_31_stable) = true /\
   length (_msgids_to_ack (client the_backlog_31_stable)) = 31%nat /\
   last_frame_fields (loop_turn the_backlog_31_stable (update_msg 5031 63)) =
     Some (msgs_ack (map (fun i => 5000 + Z.of_nat i) (seq 0 32)))) /\
  (length (_msgids_to_ack (client (loop_turn the_backlog_32_timed_out result_1001)))
   = 32%nat /\
   _stable_seqno (client (loop_turn the_backlog_32_timed_out result_1001)) = true).
Proof.
  repeat split; vm_compute; reflexivity.
Qed.

(** The [rpc_result] for request 1001 under seqno 1: the flush that follows
    its enqueue empties the buffer. *)
Lemma C10_witness :
  _stable_seqno (client (dispatch result_1001 the_first_call).1) = true /\
  _msgids_to_ack (client (dispatch result_1001 the_first_call).1) = [] /\
  _msgids_to_ack
    (client (after_flush_write (clock_at 5) (enqueued 6001 (in_flight true 0))
               (transport_sent_1000 0) true)) = [].
Proof.
  destruct (C10_flush_after_enqueue writes_succeed (clock_at 5) ping_ids
              transport_1000 fields_of 6001 1
              (rpc_result 1001 (other_cons "config" ∅)) the_first_call eq_refl)
    as [_ H].
  assert (_stable_seqno (client (dispatch result_1001 the_first_call).1) = true)
    as Hst by (vm_compute; reflexivity).
  split; [exact Hst|]. split.
  - apply (H _ eq_refl); [vm_compute; reflexivity | exact Hst].
  - destruct (C10_flush_after_enqueue writes_succeed (clock_at 5) ping_ids
                transport_1000 fields_of 6001 1
                (rpc_result 1001 (other_cons "config" ∅)) (in_flight true 0) eq_refl)
      as [H' _].
    apply (H' (transport_sent_1000 0) eq_refl eq_refl).
Defined.

(** C9, at the failing inputs.  The ping of the first call is message 1000
    and waits on future 1.  Its pong resolves future 1 and leaves the
    registration in place; when the same pong is delivered again,
    [_process_pong] calls [set_result] on the resolved future, which raises.
    The late [rpc_result] for a request whose caller timed out does the same
    on the cancelled future. *)
Lemma C9_fulfilment_of_resolved_slot :
  _pending_requests (client the_first_call) !! 1000 =
    Some (mkPendingRequest 1
            (<["_cons" := VStr "ping"]> (<["ping_id" := VInt 7000]> ∅))) /\
  futures the_first_call !! 1%nat = None /\
  (dispatch pong_1000 the_first_call).2 = Ok tt /\
  futures (dispatch pong_1000 the_first_call).1 !! 1%nat = Some (FResult ∅) /\
  response <$>
    _pending_requests (client (dispatch pong_1000 the_first_call).1) !! 1000
  = Some 1%nat /\
  (dispatch pong_1000 (dispatch pong_1000 the_first_call).1).2 =
    Raise InvalidStateError /\
  futures timed_out_call !! 0%nat = Some FCancelled /\
  (dispatch result_1001 timed_out_call).2 = Raise InvalidStateError.
Proof.
  repeat split; vm_compute; reflexivity.
Qed.

(** * Examples for the further properties *)


(** The answer to that request arrives as [rpc_result] for message 1000. *)
Lemma X4_witness :
  futures
    (_process_telegram_message_body writes_succeed (clock_at 5) ping_ids
       transport_1000 fields_of (rpc_result 1000 (other_cons "config" ∅))
       (rpc_call writes_succeed (clock_at 5) ping_ids transport_1000 getConfig
          (connected transport_1000 (init_world 0))).1).1 =
    <[0%nat := FResult (fields_of (other_cons "config" ∅))]> ∅.
Proof.
  apply (X4_call_then_result writes_succeed (clock_at 5) ping_ids
           transport_1000 fields_of getConfig (VStr "help.getConfig")
           transport_1000 (other_cons "config" ∅) (other_cons "config" ∅)
           (connected transport_1000 (init_world 0)));
    first [reflexivity | left; reflexivity].
Defined.


(** The pong for the ping that opened the session of the first call. *)
Lemma X6_witness :
  (_process_telegram_message_body writes_succeed (clock_at 5) ping_ids
     transport_1000 fields_of (pong 1000 7000)
     (_create_new_ping_request writes_succeed ping_ids
        (connected transport_1000 (init_world 0))).1).2 = Ok tt.
Proof.
  apply (X6_ping_then_pong writes_succeed (clock_at 5) ping_ids transport_1000
           fields_of transport_1000 (connected transport_1000 (init_world 0)));
    reflexivity.
Defined.

(** After the first call the read loop runs; it takes an update with seqno
    9, and the counter, which stood at 3, ends at 9 or above. *)
Lemma X8_witness :
  9 <= _last_seqno
         (client
            (after writes_succeed (clock_at 5) ping_ids transport_1000 fields_of
               (ev_received (update_msg 5000 9))
               (run writes_succeed (clock_at 5) ping_ids transport_1000 fields_of
                  [ev_rpc_call getConfig] (init_world 0)))).
Proof.
  destruct (X8_last_seqno_monotone writes_succeed (clock_at 5) ping_ids
              transport_1000 fields_of 0 [ev_rpc_call getConfig] [] 5000 9
              (other_cons "updateShort" ∅)) as [_ H].
  apply H. reflexivity.
Defined.

(** The two frames of the first call, the ping under seqno 1 and the
    request under seqno 3. *)
Lemma X9_witness :
  StronglySorted Z.lt
    (f_seqno <$> [mkFrame 1000 1 (ping_request 7000); mkFrame 1001 3 getConfig]).
Proof.
  destruct (X9_wire_seqnos_increase writes_succeed (clock_at 5) ping_ids
              transport_1000 fields_of 0 [ev_rpc_call getConfig]
              {| server_salt := 0; last_msg_id := 1001;
                 outbox := [mkFrame 1000 1 (ping_request 7000);
                            mkFrame 1001 3 getConfig] |}
              eq_refl eq_refl) as [H _].
  exact H.
Defined.

(** * [tl/byteutils.py]: properties *)

Lemma byte_to_Z_range (b : byte) : 0 <= byteutils.byte_to_Z b < 256.
Proof.
  unfold byteutils.byte_to_Z. pose proof (Byte.to_N_bounded b). lia.
Qed.

Lemma byte_of_N_small (n : N) :
  (n <= 255)%N -> exists b, Byte.of_N n = Some b /\ Byte.to_N b = n.
Proof.
  intros Hn. pose proof (Byte.to_of_N_option_map n) as H.
  destruct (Byte.of_N n) as [b|] eqn:E; cbn in H.
  - exists b. split; [reflexivity|]. apply Byte.to_of_N, E.
  - apply N.leb_le in Hn. rewrite Hn in H. discriminate.
Qed.

Lemma byte_of_to_Z (b : byte) : byteutils.byte_of_Z (byteutils.byte_to_Z b) = b.
Proof.
  pose proof (byte_to_Z_range b) as Hr. unfold byteutils.byte_of_Z.
  rewrite Z.mod_small by exact Hr. unfold byteutils.byte_to_Z.
  rewrite N2Z.id, Byte.of_to_N. reflexivity.
Qed.

Lemma byte_to_of_Z (z : Z) :
  0 <= z < 256 -> byteutils.byte_to_Z (byteutils.byte_of_Z z) = z.
Proof.
  intros Hz. unfold byteutils.byte_of_Z, byteutils.byte_to_Z.
  rewrite Z.mod_small by exact Hz.
  destruct (byte_of_N_small (Z.to_N z)) as (b & -> & Hb); [lia|].
  cbn. rewrite Hb. lia.
Qed.

Lemma lxor_byte (a b : N) : (a <= 255 -> b <= 255 -> N.lxor a b <= 255)%N.
Proof.
  intros Ha Hb.
  destruct (N.eq_dec (N.lxor a b) 0) as [->|Hne]; [lia|].
  assert (N.log2 (N.lxor a b) < 8)%N as Hlog.
  { pose proof (N.log2_lxor a b) as Hl.
    assert (forall c, (c <= 255 -> N.log2 c < 8)%N) as Hc.
    { intros c Hc. destruct (N.eq_dec c 0) as [->|Hc0]; [cbn; lia|].
      apply N.log2_lt_pow2; [lia|]. change (2 ^ 8)%N with 256%N. lia. }
    specialize (Hc a Ha) as Ha'. specialize (Hc b Hb) as Hb'. lia. }
  apply N.log2_lt_pow2 in Hlog; [|lia]. change (2 ^ 8)%N with 256%N in Hlog. lia.
Qed.

Lemma byte_xor_to_N (ca cb : byte) :
  Byte.to_N (byteutils.byte_xor ca cb) = N.lxor (Byte.to_N ca) (Byte.to_N cb).
Proof.
  unfold byteutils.byte_xor.
  destruct (byte_of_N_small (N.lxor (Byte.to_N ca) (Byte.to_N cb)))
    as (b & -> & Hb); [|exact Hb].
  apply lxor_byte; apply Byte.to_N_bounded.
Qed.

Lemma byte_to_N_inj (a b : byte) : Byte.to_N a = Byte.to_N b -> a = b.
Proof.
  intros H. apply (f_equal Byte.of_N) in H. rewrite !Byte.of_to_N in H.
  congruence.
Qed.

Lemma byte_xor_comm (ca cb : byte) :
  byteutils.byte_xor ca cb = byteutils.byte_xor cb ca.
Proof. unfold byteutils.byte_xor. rewrite N.lxor_comm. reflexivity. Qed.

Lemma byte_xor_cancel (ca cb : byte) :
  byteutils.byte_xor (byteutils.byte_xor ca cb) cb = ca.
Proof.
  apply byte_to_N_inj.
  rewrite !byte_xor_to_N, N.lxor_assoc, N.lxor_nilpotent, N.lxor_0_r.
  reflexivity.
Qed.

(** X10.  [xor] pairs the bytes of its arguments up to the end of the
    shorter one: the result is as long as the shorter argument; the
    arguments may be swapped; and xoring the result with the second
    argument again gives back the first argument, cut to the length of the
    second when it is longer. *)
Theorem X10_xor (a b : byteutils.bytes) :
  length (byteutils.xor a b) = Nat.min (length a) (length b) /\
  byteutils.xor a b = byteutils.xor b a /\
  byteutils.xor (byteutils.xor a b) b = take (length b) a.
Proof.
  unfold byteutils.xor. split; [|split].
  - apply length_zip_with.
  - revert b. induction a as [|ca a IH]; intros [|cb b]; cbn; try reflexivity.
    rewrite byte_xor_comm, IH. reflexivity.
  - revert b. induction a as [|ca a IH]; intros [|cb b]; cbn; try reflexivity.
    rewrite byte_xor_cancel, IH. reflexivity.
Qed.

Lemma le_digits_length (n : nat) (x : Z) : length (byteutils.le_digits n x) = n.
Proof. revert x. induction n as [|n IH]; intros x; cbn; [reflexivity | by rewrite IH]. Qed.

Lemma le_value_digits (n : nat) (x : Z) :
  0 <= x < 256 ^ Z.of_nat n -> byteutils.le_value (byteutils.le_digits n x) = x.
Proof.
  revert x. induction n as [|n IH]; intros x Hx.
  - cbn in *. lia.
  - cbn [byteutils.le_digits byteutils.le_value].
    rewrite Nat2Z.inj_succ, Z.pow_succ_r in Hx by lia.
    rewrite byte_to_of_Z by (apply Z.mod_pos_bound; lia).
    rewrite IH by (split; [apply Z.div_pos; lia | apply Z.div_lt_upper_bound; lia]).
    pose proof (Z.div_mod x 256). lia.
Qed.

Lemma int_from_to_bytes (n : nat) (x : Z) :
  0 <= x < 256 ^ Z.of_nat n ->
  byteutils.int_to_bytes x n byteutils.little false = inr (byteutils.le_digits n x) /\
  byteutils.int_from_bytes (byteutils.le_digits n x) byteutils.little false = x.
Proof.
  intros Hx. unfold byteutils.int_to_bytes, byteutils.int_from_bytes. cbn [andb].
  split; [|apply le_value_digits, Hx].
  destruct (Z.leb_spec 0 x); [|lia].
  destruct (Z.ltb_spec x (256 ^ Z.of_nat n)); [|lia]. reflexivity.
Qed.

Lemma slice_middle {A} (pre mid post : list A) :
  byteutils.slice (pre ++ mid ++ post) (Z.of_nat (length pre))
    (Z.of_nat (length pre) + Z.of_nat (length mid)) = mid.
Proof.
  unfold byteutils.slice, byteutils.slice_index. rewrite !length_app.
  destruct (Z.ltb_spec (Z.of_nat (length pre)) 0); [lia|].
  destruct (Z.ltb_spec (Z.of_nat (length pre) + Z.of_nat (length mid)) 0); [lia|].
  rewrite !Z.min_l by lia.
  replace (Z.to_nat (Z.of_nat (length pre) + Z.of_nat (length mid) - Z.of_nat (length pre)))
    with (length mid) by lia.
  rewrite Nat2Z.id, drop_app_length, take_app_length. reflexivity.
Qed.

(** Reading the bytes that lie at the offset. *)
Lemma read_chunk (pre mid post : byteutils.bytes) (self : byteutils.Bytedata.t) :
  byteutils.Bytedata._offset self = Z.of_nat (length pre) ->
  byteutils.Bytedata._data self = pre ++ mid ++ post ->
  byteutils.Bytedata.read (Z.of_nat (length mid)) self =
    ({| byteutils.Bytedata._byte_order := byteutils.Bytedata._byte_order self;
        byteutils.Bytedata._signed := byteutils.Bytedata._signed self;
        byteutils.Bytedata._offset := Z.of_nat (length (pre ++ mid));
        byteutils.Bytedata._data := byteutils.Bytedata._data self |},
     inr mid).
Proof.
  intros Hoff Hdata. unfold byteutils.Bytedata.read.
  rewrite Hdata, Hoff, !length_app.
  destruct (Z.ltb_spec (Z.of_nat (length pre + (length mid + length post)))
              (Z.of_nat (length mid))); [lia|].
  rewrite slice_middle. do 2 f_equal. lia.
Qed.

Lemma read_at (n : Z) (pre mid post : byteutils.bytes) (bo : byteutils.ByteOrder)
  (sg : bool) (off : Z) (data : byteutils.bytes) :
  off = Z.of_nat (length pre) ->
  data = pre ++ mid ++ post ->
  n = Z.of_nat (length mid) ->
  byteutils.Bytedata.read n (byteutils.Bytedata.mk bo sg off data) =
    (byteutils.Bytedata.mk bo sg (off + n) data, inr mid).
Proof.
  intros -> -> ->. unfold byteutils.Bytedata.read. cbn. rewrite !length_app.
  destruct (Z.ltb_spec (Z.of_nat (length pre + (length mid + length post)))
              (Z.of_nat (length mid))); [lia|].
  rewrite slice_middle. reflexivity.
Qed.

Lemma zeros_length (k : Z) : length (byteutils.zeros k) = Z.to_nat k.
Proof. apply length_replicate. Qed.

Lemma pack_binary_string_eq (data : byteutils.bytes) :
  byteutils.pack_binary_string data =
    let n := Z.of_nat (length data) in
    if n <? 254
    then inr ([byteutils.byte_of_Z n] ++ data ++ byteutils.zeros ((3 - n) mod 4))
    else if n <=? 0xFFFFFF
    then inr ([Byte.xfe] ++ byteutils.le_digits 3 n ++ data ++
              byteutils.zeros ((- n) mod 4))
    else inl byteutils.OverflowError.
Proof.
  unfold byteutils.pack_binary_string. cbv zeta.
  destruct (Z.ltb_spec (Z.of_nat (length data)) 254) as [Hs|Hs].
  - destruct (int_from_to_bytes 1 (Z.of_nat (length data))) as [-> _];
      [change (256 ^ Z.of_nat 1) with 256; lia|].
    cbn [byteutils.le_digits]. rewrite Z.mod_small by lia. reflexivity.
  - destruct (Z.leb_spec (Z.of_nat (length data)) 16777215) as [Hl|Hl];
      [|reflexivity].
    destruct (int_from_to_bytes 3 (Z.of_nat (length data))) as [-> _];
      [change (256 ^ Z.of_nat 3) with 16777216; lia | reflexivity].
Qed.

(** X11.  [pack_binary_string] raises [OverflowError] exactly when the data
    is longer than [0xFFFFFF] bytes, and nothing else.  Otherwise the
    packed string is the data between a header and a padding of fewer than
    four zero bytes: the header is the length in one byte when the data is
    shorter than 254 bytes, and [0xfe] with the length in three bytes,
    least significant first, from there on; and the packed string is a
    whole number of four-byte words. *)
Theorem X11_pack_binary_string (data : byteutils.bytes) :
  let n := Z.of_nat (length data) in
  (byteutils.pack_binary_string data = inl byteutils.OverflowError <->
   0xFFFFFF < n) /\
  (forall e, byteutils.pack_binary_string data = inl e ->
             e = byteutils.OverflowError) /\
  (forall packed,
     byteutils.pack_binary_string data = inr packed ->
     Z.of_nat (length packed) mod 4 = 0 /\
     exists header padding,
       packed = header ++ data ++ padding /\
       header = (if n <? 254 then [byteutils.byte_of_Z n]
                 else Byte.xfe :: byteutils.le_digits 3 n) /\
       (length padding < 4)%nat /\
       padding = replicate (length padding) Byte.x00).
Proof.
  intros n. subst n. rewrite pack_binary_string_eq. cbv zeta.
  set (n := Z.of_nat (length data)).
  assert (n = Z.of_nat (length data)) as Hn by reflexivity.
  pose proof (Z.mod_pos_bound (3 - n) 4) as Hp3.
  pose proof (Z.mod_pos_bound (- n) 4) as Hp0.
  destruct (Z.ltb_spec n 254) as [Hs|Hs]; [|destruct (Z.leb_spec n 16777215) as [Hl|Hl]].
  - split; [split; [discriminate | lia]|]. split; [discriminate|].
    intros packed [= <-]. split.
    + match goal with
      | |- Z.of_nat (length ?l) mod 4 = 0 =>
          assert (Z.of_nat (length l) = 1 + n + (3 - n) mod 4) as ->
      end.
      { cbn [app length]. rewrite !length_app, zeros_length. lia. }
      Z.to_euclidean_division_equations. lia.
    + exists [byteutils.byte_of_Z n], (byteutils.zeros ((3 - n) mod 4)).
      rewrite zeros_length. repeat split. lia.
  - split; [split; [discriminate | lia]|]. split; [discriminate|].
    intros packed [= <-]. split.
    + match goal with
      | |- Z.of_nat (length ?l) mod 4 = 0 =>
          assert (Z.of_nat (length l) = 4 + n + (- n) mod 4) as ->
      end.
      { cbn [app length byteutils.le_digits].
        rewrite !length_app, zeros_length. lia. }
      Z.to_euclidean_division_equations. lia.
    + exists (Byte.xfe :: byteutils.le_digits 3 n), (byteutils.zeros ((- n) mod 4)).
      rewrite zeros_length. repeat split. lia.
  - split; [split; [lia | reflexivity]|]. split; [intros e [= <-]; reflexivity|].
    intros packed [=].
Qed.

(** Both decoders, on the bytes of a short and of a long packed string that
    lie at the offset. *)
Lemma unpack_short (pre data pad rest : byteutils.bytes)
  (bo : byteutils.ByteOrder) (sg : bool) (n : Z) :
  n = Z.of_nat (length data) -> n < 254 ->
  Z.of_nat (length pad) = (3 - n) mod 4 ->
  let all := pre ++ [byteutils.byte_of_Z n] ++ data ++ pad ++ rest in
  let self := byteutils.Bytedata.mk bo sg (Z.of_nat (length pre)) all in
  let self' := byteutils.Bytedata.mk bo sg
                 (Z.of_nat (length pre) + 1 + n + Z.of_nat (length pad)) all in
  byteutils.Bytedata.unpack_binary_string self = (self', inr data) /\
  byteutils.unpack_binary_string byteutils.Bytedata.cororead self = (self', inr data).
Proof.
  intros Hn Hs Hpad all self self'.
  assert (byteutils.Bytedata.read 1 self =
            (byteutils.Bytedata.mk bo sg (Z.of_nat (length pre) + 1) all,
             inr [byteutils.byte_of_Z n])) as H1.
  { apply (read_at 1 pre [byteutils.byte_of_Z n] (data ++ pad ++ rest));
      reflexivity. }
  assert (byteutils.Bytedata.read n
            (byteutils.Bytedata.mk bo sg (Z.of_nat (length pre) + 1) all) =
            (byteutils.Bytedata.mk bo sg (Z.of_nat (length pre) + 1 + n) all,
             inr data)) as H2.
  { apply (read_at n (pre ++ [byteutils.byte_of_Z n]) data (pad ++ rest)).
    - rewrite length_app. cbn [length]. lia.
    - subst all. rewrite <- !app_assoc. reflexivity.
    - exact Hn. }
  assert (byteutils.Bytedata.read ((3 - n) mod 4)
            (byteutils.Bytedata.mk bo sg (Z.of_nat (length pre) + 1 + n) all) =
            (self', inr pad)) as H3.
  { rewrite <- Hpad.
    apply (read_at _ (pre ++ [byteutils.byte_of_Z n] ++ data) pad rest).
    - rewrite !length_app. cbn [length]. lia.
    - subst all. rewrite <- !app_assoc. reflexivity.
    - reflexivity. }
  assert (byteutils.ord [byteutils.byte_of_Z n] = inr n) as Hord.
  { cbn. rewrite byte_to_of_Z by lia. reflexivity. }
  assert ((254 <? n) = false) as Hlt by lia.
  assert ((n =? 254) = false) as Heq by lia.
  split.
  - unfold byteutils.Bytedata.unpack_binary_string, byteutils.op_bind at 1.
    rewrite H1. unfold byteutils.op_bind at 1, byteutils.op_lift. rewrite Hord.
    rewrite Hlt, Heq. unfold byteutils.op_bind at 1, byteutils.op_ret at 1.
    unfold byteutils.op_bind at 1. rewrite H2.
    unfold byteutils.op_bind at 1. rewrite H3. reflexivity.
  - unfold byteutils.unpack_binary_string, byteutils.Bytedata.cororead,
      byteutils.op_bind at 1.
    rewrite H1. unfold byteutils.op_bind at 1, byteutils.op_lift. rewrite Hord.
    rewrite Hlt, Heq. unfold byteutils.op_bind at 1, byteutils.op_ret at 1.
    unfold byteutils.op_bind at 1. rewrite H2.
    unfold byteutils.op_bind at 1. rewrite H3. reflexivity.
Qed.

Lemma unpack_long_form (pre data pad rest : byteutils.bytes)
  (bo : byteutils.ByteOrder) (sg : bool) (n : Z) :
  n = Z.of_nat (length data) -> 254 <= n <= 0xFFFFFF ->
  Z.of_nat (length pad) = (- n) mod 4 ->
  let all := pre ++ [Byte.xfe] ++ byteutils.le_digits 3 n ++ data ++ pad ++ rest in
  let self := byteutils.Bytedata.mk bo sg (Z.of_nat (length pre)) all in
  let self' := byteutils.Bytedata.mk bo sg
                 (Z.of_nat (length pre) + 4 + n + Z.of_nat (length pad)) all in
  byteutils.Bytedata.unpack_binary_string self = (self', inr data) /\
  byteutils.unpack_binary_string byteutils.Bytedata.cororead self = (self', inr data).
Proof.
  intros Hn Hs Hpad all self self'.
  assert (byteutils.Bytedata.read 1 self =
            (byteutils.Bytedata.mk bo sg (Z.of_nat (length pre) + 1) all,
             inr [Byte.xfe])) as H1.
  { apply (read_at 1 pre [Byte.xfe]
             (byteutils.le_digits 3 n ++ data ++ pad ++ rest)); reflexivity. }
  assert (byteutils.Bytedata.read 3
            (byteutils.Bytedata.mk bo sg (Z.of_nat (length pre) + 1) all) =
            (byteutils.Bytedata.mk bo sg (Z.of_nat (length pre) + 1 + 3) all,
             inr (byteutils.le_digits 3 n))) as H0.
  { apply (read_at 3 (pre ++ [Byte.xfe]) (byteutils.le_digits 3 n)
             (data ++ pad ++ rest)).
    - rewrite length_app. cbn [length]. lia.
    - subst all. rewrite <- !app_assoc. reflexivity.
    - reflexivity. }
  assert (byteutils.Bytedata.read n
            (byteutils.Bytedata.mk bo sg (Z.of_nat (length pre) + 1 + 3) all) =
            (byteutils.Bytedata.mk bo sg (Z.of_nat (length pre) + 1 + 3 + n) all,
             inr data)) as H2.
  { apply (read_at n (pre ++ [Byte.xfe] ++ byteutils.le_digits 3 n) data
             (pad ++ rest)).
    - rewrite !length_app, le_digits_length. cbn [length]. lia.
    - subst all. rewrite <- !app_assoc. reflexivity.
    - exact Hn. }
  assert (byteutils.Bytedata.read ((- n) mod 4)
            (byteutils.Bytedata.mk bo sg (Z.of_nat (length pre) + 1 + 3 + n) all) =
            (self', inr pad)) as H3.
  { rewrite <- Hpad.
    replace self' with
      (byteutils.Bytedata.mk bo sg
         (Z.of_nat (length pre) + 1 + 3 + n + Z.of_nat (length pad)) all)
      by (subst self'; f_equal; lia).
    apply (read_at _ (pre ++ [Byte.xfe] ++ byteutils.le_digits 3 n ++ data) pad rest).
    - rewrite !length_app, le_digits_length. cbn [length]. lia.
    - subst all. rewrite <- !app_assoc. reflexivity.
    - reflexivity. }
  assert (byteutils.int_from_bytes (byteutils.le_digits 3 n) byteutils.little false = n)
    as Hval.
  { apply int_from_to_bytes. change (256 ^ Z.of_nat 3) with 16777216. lia. }
  split.
  - unfold byteutils.Bytedata.unpack_binary_string, byteutils.op_bind at 1.
    rewrite H1. unfold byteutils.op_bind at 1, byteutils.op_lift.
    change (byteutils.ord [Byte.xfe]) with (@inr byteutils.PyError Z 254).
    unfold byteutils.op_bind at 1. unfold byteutils.op_bind at 1.
    change (254 <? 254) with false. change (254 =? 254) with true.
    cbv beta iota. rewrite H0.
    rewrite Hval. unfold byteutils.op_ret at 1.
    unfold byteutils.op_bind at 1. rewrite H2.
    unfold byteutils.op_bind at 1. rewrite H3. reflexivity.
  - unfold byteutils.unpack_binary_string, byteutils.Bytedata.cororead,
      byteutils.op_bind at 1.
    rewrite H1. unfold byteutils.op_bind at 1, byteutils.op_lift.
    change (byteutils.ord [Byte.xfe]) with (@inr byteutils.PyError Z 254).
    unfold byteutils.op_bind at 1. unfold byteutils.op_bind at 1.
    change (254 <? 254) with false. change (254 =? 254) with true.
    cbv beta iota. rewrite H0.
    rewrite Hval. unfold byteutils.op_ret at 1.
    unfold byteutils.op_bind at 1. rewrite H2.
    unfold byteutils.op_bind at 1. rewrite H3. reflexivity.
Qed.

(** X12.  Decoding what was encoded.  When [pack_binary_string data]
    returns, a [Bytedata] whose buffer holds the packed string at its
    offset, after any bytes already consumed and before any further bytes,
    decodes it: [Bytedata.unpack_binary_string] returns [data] and leaves
    the offset just past the packed string, padding included, so that the
    bytes that remain are the further bytes; the module's
    [unpack_binary_string], reading through [cororead], does the same. *)
Theorem X12_unpack_packed (data packed pre rest : byteutils.bytes)
  (byte_order : byteutils.ByteOrder) (signed : bool) :
  byteutils.pack_binary_string data = inr packed ->
  let self := byteutils.Bytedata.mk byte_order signed
                (Z.of_nat (length pre)) (pre ++ packed ++ rest) in
  let self' := byteutils.Bytedata.mk byte_order signed
                 (Z.of_nat (length pre + length packed)) (pre ++ packed ++ rest) in
  byteutils.Bytedata.unpack_binary_string self = (self', inr data) /\
  byteutils.unpack_binary_string byteutils.Bytedata.cororead self = (self', inr data) /\
  byteutils.Bytedata.__bytes__ self' = rest.
Proof.
  intros Hpack self self'.
  assert (byteutils.Bytedata.__bytes__ self' = rest) as Hrest.
  { unfold byteutils.Bytedata.__bytes__, byteutils.slice_from, byteutils.slice_index.
    cbn [byteutils.Bytedata._data byteutils.Bytedata._offset self'].
    destruct (Z.ltb_spec (Z.of_nat (length pre + length packed)) 0); [lia|].
    rewrite Z.min_l by (rewrite !length_app; lia).
    rewrite Nat2Z.id, app_assoc, <- length_app, drop_app_length. reflexivity. }
  rewrite pack_binary_string_eq in Hpack. cbv zeta in Hpack.
  set (n := Z.of_nat (length data)) in *.
  pose proof (Z.mod_pos_bound (3 - n) 4) as Hp3.
  pose proof (Z.mod_pos_bound (- n) 4) as Hp0.
  destruct (Z.ltb_spec n 254) as [Hs|Hs];
    [|destruct (Z.leb_spec n 16777215) as [Hl|Hl]; [|discriminate]].
  - assert (packed = [byteutils.byte_of_Z n] ++ data ++
                     byteutils.zeros ((3 - n) mod 4)) as -> by congruence.
    destruct (unpack_short pre data (byteutils.zeros ((3 - n) mod 4)) rest
                byte_order signed n eq_refl Hs) as [Ha Hb].
    { rewrite zeros_length. lia. }
    assert (self' =
              byteutils.Bytedata.mk byte_order signed
                (Z.of_nat (length pre) + 1 + n +
                 Z.of_nat (length (byteutils.zeros ((3 - n) mod 4))))
                (pre ++ [byteutils.byte_of_Z n] ++ data ++
                 byteutils.zeros ((3 - n) mod 4) ++ rest)) as Hself'.
    { subst self'. rewrite <- !app_assoc. f_equal.
      rewrite !length_app. cbn [length]. lia. }
    subst self. rewrite <- !app_assoc. rewrite Hself'.
    split; [exact Ha | split; [exact Hb|]]. rewrite <- Hself'. exact Hrest.
  - assert (packed = [Byte.xfe] ++ byteutils.le_digits 3 n ++ data ++
                     byteutils.zeros ((- n) mod 4)) as -> by congruence.
    destruct (unpack_long_form pre data (byteutils.zeros ((- n) mod 4)) rest
                byte_order signed n eq_refl (conj Hs Hl)) as [Ha Hb].
    { rewrite zeros_length. lia. }
    assert (self' =
              byteutils.Bytedata.mk byte_order signed
                (Z.of_nat (length pre) + 4 + n +
                 Z.of_nat (length (byteutils.zeros ((- n) mod 4))))
                (pre ++ [Byte.xfe] ++ byteutils.le_digits 3 n ++ data ++
                 byteutils.zeros ((- n) mod 4) ++ rest)) as Hself'.
    { subst self'. rewrite <- !app_assoc. f_equal.
      rewrite !length_app, le_digits_length. cbn [length]. lia. }
    subst self. rewrite <- !app_assoc. rewrite Hself'.
    split; [exact Ha | split; [exact Hb|]]. rewrite <- Hself'. exact Hrest.
Qed.

(** The string [b"ab"], packed as [02 61 62 00] and followed by [ff]. *)
Lemma X12_witness :
  byteutils.Bytedata.unpack_binary_string
    (byteutils.Bytedata.__init__
       [Byte.x02; Byte.x61; Byte.x62; Byte.x00; Byte.xff] byteutils.big false) =
    (byteutils.Bytedata.mk byteutils.big false 4
       [Byte.x02; Byte.x61; Byte.x62; Byte.x00; Byte.xff],
     inr [Byte.x61; Byte.x62]).
Proof.
  destruct (X12_unpack_packed [Byte.x61; Byte.x62]
              [Byte.x02; Byte.x61; Byte.x62; Byte.x00] [] [Byte.xff]
              byteutils.big false eq_refl) as [H _].
  exact H.
Defined.

(** X13.  [Bytedata.read] compares the number of bytes asked for with the
    length of the whole buffer, not with what is left of it.  It raises
    [ValueError], and leaves the object as it was, exactly when more bytes
    are asked for than the buffer holds in all.  Otherwise it returns the
    bytes from the offset on, at most [num_bytes] of them and fewer when
    the buffer ends before, without an error, and moves the offset by
    [num_bytes] even when that is past the end; from an offset at or past
    the end it returns no bytes. *)
Theorem X13_read (num_bytes : Z) (self : byteutils.Bytedata.t) :
  0 <= byteutils.Bytedata._offset self ->
  0 <= num_bytes ->
  let len := Z.of_nat (length (byteutils.Bytedata._data self)) in
  let r := byteutils.Bytedata.read num_bytes self in
  (r.2 = inl byteutils.ValueError <-> len < num_bytes) /\
  (len < num_bytes -> r.1 = self) /\
  (num_bytes <= len ->
   r.2 = inr (take (Z.to_nat num_bytes)
                (drop (Z.to_nat (byteutils.Bytedata._offset self))
                   (byteutils.Bytedata._data self))) /\
   byteutils.Bytedata._offset r.1 = byteutils.Bytedata._offset self + num_bytes /\
   byteutils.Bytedata._data r.1 = byteutils.Bytedata._data self /\
   (len <= byteutils.Bytedata._offset self -> r.2 = inr [])).
Proof.
  intros Hoff Hn len r. subst r. unfold byteutils.Bytedata.read. fold len.
  destruct (Z.ltb_spec len num_bytes) as [Hlt|Hge]; cbn [fst snd].
  - split; [split; [intros _; exact Hlt | reflexivity]|].
    split; [reflexivity | lia].
  - split; [split; [discriminate | lia]|]. split; [lia|]. intros _.
    assert (byteutils.slice (byteutils.Bytedata._data self)
              (byteutils.Bytedata._offset self)
              (byteutils.Bytedata._offset self + num_bytes) =
            take (Z.to_nat num_bytes)
              (drop (Z.to_nat (byteutils.Bytedata._offset self))
                 (byteutils.Bytedata._data self))) as Hslice.
    { unfold byteutils.slice, byteutils.slice_index. fold len.
      destruct (Z.ltb_spec (byteutils.Bytedata._offset self) 0); [lia|].
      destruct (Z.ltb_spec (byteutils.Bytedata._offset self + num_bytes) 0); [lia|].
      destruct (Z.le_gt_cases len (byteutils.Bytedata._offset self)) as [Hend|Hin].
      - rewrite !Z.min_r by lia. rewrite Z.sub_diag.
        rewrite !drop_ge by lia. rewrite !take_nil. reflexivity.
      - rewrite (Z.min_l (byteutils.Bytedata._offset self)) by lia.
        destruct (Z.le_gt_cases (byteutils.Bytedata._offset self + num_bytes) len).
        + rewrite Z.min_l by lia. f_equal. lia.
        + rewrite Z.min_r by lia.
          rewrite !take_ge by (rewrite length_drop; lia). reflexivity. }
    rewrite Hslice. repeat split.
    intros Hend. rewrite drop_ge by lia. rewrite take_nil. reflexivity.
Qed.

(** A buffer of four bytes: a first [read(3)] returns three, a second one
    returns the last byte without an error, and [read(5)] raises. *)
Lemma X13_witness :
  (byteutils.Bytedata.read 3
     (byteutils.Bytedata.mk byteutils.big false 3
        [Byte.x61; Byte.x62; Byte.x63; Byte.x64])).2 = inr [Byte.x64] /\
  (byteutils.Bytedata.read 5
     (byteutils.Bytedata.mk byteutils.big false 0
        [Byte.x61; Byte.x62; Byte.x63; Byte.x64])).2 = inl byteutils.ValueError.
Proof.
  split.
  - destruct (X13_read 3
                (byteutils.Bytedata.mk byteutils.big false 3
                   [Byte.x61; Byte.x62; Byte.x63; Byte.x64]))
      as (_ & _ & H); [cbn; lia | lia |].
    destruct H as [H _]; [cbn; lia|]. rewrite H. reflexivity.
  - destruct (X13_read 5
                (byteutils.Bytedata.mk byteutils.big false 0
                   [Byte.x61; Byte.x62; Byte.x63; Byte.x64]))
      as ([_ H] & _); [cbn; lia | lia |].
    apply H. cbn. lia.
Defined.

(** X14.  Long strings.  [pack_long_binary_string] raises [OverflowError]
    exactly when the length of the data does not fit four bytes; otherwise
    the packed string is four bytes longer than the data, and
    [unpack_long_binary_string], reading through [cororead] from a
    [Bytedata] that holds the packed string at its offset, returns the
    data and leaves the offset just past it. *)
Theorem X14_long_binary_string (data pre rest : byteutils.bytes)
  (byte_order : byteutils.ByteOrder) (signed : bool) :
  let n := Z.of_nat (length data) in
  (byteutils.pack_long_binary_string data = inl byteutils.OverflowError <->
   2 ^ 32 <= n) /\
  (forall packed,
     byteutils.pack_long_binary_string data = inr packed ->
     length packed = (4 + length data)%nat /\
     byteutils.unpack_long_binary_string byteutils.Bytedata.cororead
       (byteutils.Bytedata.mk byte_order signed (Z.of_nat (length pre))
          (pre ++ packed ++ rest)) =
       (byteutils.Bytedata.mk byte_order signed
          (Z.of_nat (length pre + length packed)) (pre ++ packed ++ rest),
        inr data)).
Proof.
  intros n. unfold byteutils.pack_long_binary_string. fold n.
  assert (0 <= n) as Hn0 by (subst n; lia).
  destruct (Z.lt_ge_cases n (2 ^ 32)) as [Hfit|Hbig].
  - destruct (int_from_to_bytes 4 n) as [-> Hval];
      [change (256 ^ Z.of_nat 4) with (2 ^ 32); lia|].
    split; [split; [discriminate | lia]|].
    intros packed Hp.
    assert (packed = byteutils.le_digits 4 n ++ data) as -> by congruence.
    split; [rewrite length_app, le_digits_length; reflexivity|].
    unfold byteutils.unpack_long_binary_string, byteutils.Bytedata.cororead,
      byteutils.op_bind.
    rewrite (read_at 4 pre (byteutils.le_digits 4 n) (data ++ rest));
      [| reflexivity | rewrite <- app_assoc; reflexivity | reflexivity].
    rewrite Hval.
    rewrite (read_at n (pre ++ byteutils.le_digits 4 n) data rest);
      [| rewrite length_app, le_digits_length; lia
       | rewrite <- !app_assoc; reflexivity | reflexivity].
    do 2 f_equal. rewrite !length_app, le_digits_length. lia.
  - unfold byteutils.int_to_bytes.
    destruct (Z.leb_spec 0 n); [|lia].
    destruct (Z.ltb_spec n (256 ^ Z.of_nat 4)) as [Hc|Hc];
      [change (256 ^ Z.of_nat 4) with (2 ^ 32) in Hc; lia|].
    cbn [andb]. split; [split; [intros _; exact Hbig | reflexivity]|].
    intros packed [=].
Qed.

Lemma byte_count (x : Z) :
  0 < x ->
  (0 < Z.to_nat ((byteutils.bit_length x - 1) / 8 + 1))%nat /\
  256 ^ (Z.of_nat (Z.to_nat ((byteutils.bit_length x - 1) / 8 + 1)) - 1) <= x
    < 256 ^ Z.of_nat (Z.to_nat ((byteutils.bit_length x - 1) / 8 + 1)).
Proof.
  intros Hx. unfold byteutils.bit_length.
  destruct (Z.eqb_spec x 0) as [->|_]; [lia|].
  rewrite Z.abs_eq by lia.
  replace (Z.log2 x + 1 - 1) with (Z.log2 x) by lia.
  pose proof (Z.log2_nonneg x) as Hl0.
  destruct (Z.log2_spec x Hx) as [Hlo Hhi].
  set (k := Z.log2 x / 8) in *.
  assert (0 <= k) as Hk by (subst k; apply Z.div_pos; lia).
  assert (8 * k <= Z.log2 x < 8 * k + 8) as Hk8
    by (subst k; Z.to_euclidean_division_equations; lia).
  rewrite Z2Nat.id by lia.
  split; [lia|]. replace (k + 1 - 1) with k by lia.
  change 256 with (2 ^ 8). rewrite <- !Z.pow_mul_r by lia. split.
  - transitivity (2 ^ Z.log2 x); [apply Z.pow_le_mono_r; lia | exact Hlo].
  - eapply Z.lt_le_trans; [exact Hhi|]. apply Z.pow_le_mono_r; lia.
Qed.

Lemma le_value_rev_digits (n : nat) (x : Z) (byte_order : byteutils.ByteOrder) :
  0 <= x < 256 ^ Z.of_nat n ->
  byteutils.le_value
    (match byte_order with
     | byteutils.little =>
         match byte_order with
         | byteutils.little => byteutils.le_digits n x
         | byteutils.big => rev (byteutils.le_digits n x)
         end
     | byteutils.big =>
         rev match byte_order with
             | byteutils.little => byteutils.le_digits n x
             | byteutils.big => rev (byteutils.le_digits n x)
             end
     end) = x.
Proof.
  intros Hx. destruct byte_order; rewrite ?rev_involutive; apply le_value_digits, Hx.
Qed.

(** X15.  [to_bytes] uses the least number of bytes that holds the
    magnitude of [x].  Zero becomes the empty string, signed or not.  A
    positive [x], unsigned, becomes a string that [int.from_bytes] reads
    back as [x] in the same byte order, and no shorter string would do.  A
    negative [x], unsigned, raises [OverflowError]; and so does, signed, a
    positive [x] whose leading byte has its top bit set (128, say), since
    the sign needs a byte more than is asked for. *)
Theorem X15_to_bytes (x : Z) (byte_order : byteutils.ByteOrder) :
  (forall signed, byteutils.to_bytes 0 byte_order signed = inr []) /\
  (0 < x ->
   exists b,
     byteutils.to_bytes x byte_order false = inr b /\
     byteutils.int_from_bytes b byte_order false = x /\
     256 ^ (Z.of_nat (length b) - 1) <= x < 256 ^ Z.of_nat (length b) /\
     (byteutils.to_bytes x byte_order true = inl byteutils.OverflowError <->
      256 ^ Z.of_nat (length b) <= 2 * x)) /\
  (x < 0 -> byteutils.to_bytes x byte_order false = inl byteutils.OverflowError).
Proof.
  split; [|split].
  - intros [|]; destruct byte_order; reflexivity.
  - intros Hx. destruct (byte_count x Hx) as [Hn0 [Hlo Hhi]].
    unfold byteutils.to_bytes.
    set (n := Z.to_nat ((byteutils.bit_length x - 1) / 8 + 1)) in *.
    exists (match byte_order with
            | byteutils.little => byteutils.le_digits n x
            | byteutils.big => rev (byteutils.le_digits n x)
            end).
    assert (length (match byte_order with
                    | byteutils.little => byteutils.le_digits n x
                    | byteutils.big => rev (byteutils.le_digits n x)
                    end) = n) as Hlen.
    { destruct byte_order; rewrite ?length_rev; apply le_digits_length. }
    rewrite Hlen. unfold byteutils.int_to_bytes, byteutils.int_from_bytes.
    rewrite Hlen. cbn [andb].
    destruct (Z.leb_spec 0 x); [|lia].
    destruct (Z.ltb_spec x (256 ^ Z.of_nat n)); [|lia]. cbn [andb].
    split; [reflexivity|]. split; [apply le_value_rev_digits; lia|].
    split; [lia|].
    destruct (Z.leb_spec (- 256 ^ Z.of_nat n) (2 * x)); [|lia]. cbn [andb].
    destruct (Z.ltb_spec (2 * x) (256 ^ Z.of_nat n)).
    + split; [discriminate | lia].
    + split; [intros _; assumption | reflexivity].
  - intros Hx. unfold byteutils.to_bytes, byteutils.int_to_bytes.
    destruct (Z.leb_spec 0 x); [lia | reflexivity].
Qed.

(** 128 takes one byte unsigned, and overflows signed; 0 takes none. *)
Lemma X15_witness :
  byteutils.to_bytes 128 byteutils.big true = inl byteutils.OverflowError /\
  byteutils.to_bytes (-1) byteutils.big false = inl byteutils.OverflowError.
Proof.
  destruct (X15_to_bytes 128 byteutils.big) as (_ & H & _).
  destruct (X15_to_bytes (-1) byteutils.big) as (_ & _ & H').
  split; [|apply H'; lia].
  destruct (H ltac:(lia)) as (b & Hb & _ & _ & Hs).
  apply Hs. injection Hb as <-. cbn. lia.
Defined.
